(** * Ownership oracle of the Koorde web-cache routing verifier

    A shallow embedding of [test/verify_routing.py]: identifier derivation
    (SHA-1 digest, truncation to [BYTE_LEN] bytes, masking of the unused high
    bits), ring construction, the successor rule, and the comparison loop
    that tallies the live system's answers. *)

From Stdlib Require Import ZArith List String Ascii Lia Bool.
From Stdlib Require Import Sorted Permutation DecimalString.
Import ListNotations.
Open Scope string_scope.
Open Scope list_scope.
Open Scope Z_scope.

(** ** Outcomes of Python calls

    A call either returns a value or raises; an exception is identified by
    the name of its class. *)

Inductive result (A : Type) : Type :=
| Ok (a : A)
| Raise (cls : string).
Arguments Ok {A} a.
Arguments Raise {A} cls.

Definition bind {A B : Type} (r : result A) (k : A -> result B) : result B :=
  match r with
  | Ok a => k a
  | Raise cls => Raise cls
  end.

Notation "x <- r ;; k" := (bind r (fun x => k))
  (at level 61, r at next level, right associativity).

(** ** Bytes and text

    A Python [bytes] / [bytearray] value is a list of integers in [0, 256).
    A Python [str] is represented by the string of its UTF-8 octets, so that
    [s.encode('utf-8')] reads the octets off. *)

Definition bytes := list Z.

Definition is_byte (b : Z) : Prop := 0 <= b < 256.

Definition encode_utf8 (s : string) : bytes :=
  map (fun c => Z.of_N (N_of_ascii c)) (list_ascii_of_string s).

(** ** [hashlib.sha1]: the SHA-1 digest (FIPS 180-4) on 32-bit words *)

Module Sha1.

Definition w32 (x : Z) : Z := x mod 2 ^ 32.

Definition rotl (n x : Z) : Z :=
  w32 (Z.lor (Z.shiftl x n) (Z.shiftr x (32 - n))).

(** [n] octets of [x], most significant first. *)
Definition be_bytes (n : nat) (x : Z) : bytes :=
  map (fun i => Z.shiftr x (8 * Z.of_nat i) mod 256) (rev (seq 0 n)).

Definition pad (m : bytes) : bytes :=
  let l := Z.of_nat (List.length m) in
  m ++ [128] ++ repeat 0 (Z.to_nat ((55 - l) mod 64)) ++ be_bytes 8 (8 * l).

Fixpoint words (n : nat) (bs : bytes) : list Z :=
  match n with
  | O => []
  | S n' =>
      match bs with
      | a :: b :: c :: d :: rest =>
          (((a * 256 + b) * 256 + c) * 256 + d) :: words n' rest
      | _ => []
      end
  end.

(** The message schedule, kept most-recent-first while it is extended. *)
Fixpoint extend (n : nat) (ws : list Z) : list Z :=
  match n with
  | O => ws
  | S n' =>
      let w := rotl 1 (Z.lxor (Z.lxor (nth 2 ws 0) (nth 7 ws 0))
                              (Z.lxor (nth 13 ws 0) (nth 15 ws 0))) in
      extend n' (w :: ws)
  end.

Definition schedule (block : bytes) : list Z :=
  rev (extend 64 (rev (words 16 block))).

Definition f (t : nat) (b c d : Z) : Z :=
  if (t <? 20)%nat then Z.lor (Z.land b c) (Z.land (Z.lxor b 0xFFFFFFFF) d)
  else if (t <? 40)%nat then Z.lxor (Z.lxor b c) d
  else if (t <? 60)%nat then
    Z.lor (Z.lor (Z.land b c) (Z.land b d)) (Z.land c d)
  else Z.lxor (Z.lxor b c) d.

Definition K (t : nat) : Z :=
  if (t <? 20)%nat then 0x5A827999
  else if (t <? 40)%nat then 0x6ED9EBA1
  else if (t <? 60)%nat then 0x8F1BBCDC
  else 0xCA62C1D6.

Definition state : Type := Z * Z * Z * Z * Z.

Definition round (st : state) (tw : nat * Z) : state :=
  let '(a, b, c, d, e) := st in
  let '(t, w) := tw in
  (w32 (rotl 5 a + f t b c d + e + K t + w), a, rotl 30 b, c, d).

Definition compress (h : state) (block : bytes) : state :=
  let '(h0, h1, h2, h3, h4) := h in
  let '(a, b, c, d, e) :=
    fold_left round (combine (seq 0 80) (schedule block)) h in
  (w32 (h0 + a), w32 (h1 + b), w32 (h2 + c), w32 (h3 + d), w32 (h4 + e)).

Fixpoint blocks (n : nat) (bs : bytes) (h : state) : state :=
  match n with
  | O => h
  | S n' => blocks n' (skipn 64 bs) (compress h (firstn 64 bs))
  end.

Definition IV : state :=
  (0x67452301, 0xEFCDAB89, 0x98BADCFE, 0x10325476, 0xC3D2E1F0).

Definition digest (m : bytes) : bytes :=
  let p := pad m in
  let '(a, b, c, d, e) := blocks (Nat.div (List.length p) 64) p IV in
  be_bytes 4 a ++ be_bytes 4 b ++ be_bytes 4 c ++ be_bytes 4 d ++ be_bytes 4 e.

End Sha1.

Definition sha1 (m : bytes) : bytes := Sha1.digest m.

(** ** [bytes.hex()] and [int(s, 16)] *)

Definition hex_digit (d : Z) : ascii :=
  if d <? 10 then ascii_of_N (Z.to_N (48 + d)) else ascii_of_N (Z.to_N (87 + d)).

Fixpoint hex (bs : bytes) : string :=
  match bs with
  | [] => EmptyString
  | b :: rest => String (hex_digit (b / 16)) (String (hex_digit (b mod 16)) (hex rest))
  end.

(** Value of one hexadecimal digit, either case; [None] for other characters. *)
Definition digit_value (c : ascii) : option Z :=
  let n := Z.of_N (N_of_ascii c) in
  if (48 <=? n) && (n <=? 57) then Some (n - 48)
  else if (97 <=? n) && (n <=? 102) then Some (n - 87)
  else if (65 <=? n) && (n <=? 70) then Some (n - 55)
  else None.

Fixpoint hex_acc (acc : Z) (s : string) : option Z :=
  match s with
  | EmptyString => Some acc
  | String c rest =>
      match digit_value c with
      | Some d => hex_acc (acc * 16 + d) rest
      | None => None
      end
  end.

(** [int(s, 16)] on strings of hexadecimal digits.  Python also accepts
    surrounding whitespace, a sign, a [0x] prefix and single underscores
    between digits; [bytes.hex()] produces none of them, and every statement
    below that goes through [int16] is about strings of digits only.  The
    empty string and any other character give [ValueError]. *)
Definition int16 (s : string) : result Z :=
  match s with
  | EmptyString => Raise "ValueError"
  | _ => match hex_acc 0 s with
         | Some v => Ok v
         | None => Raise "ValueError"
         end
  end.

(** ** Module-level configuration

    The globals [NUM_NODES], [ID_BITS] and [BYTE_LEN]; every function reads
    them, only [load_config] assigns them. *)

Record config : Type := Config {
  NUM_NODES : Z;
  ID_BITS : Z;
  BYTE_LEN : Z
}.

Definition default_config : config :=
  {| NUM_NODES := 8; ID_BITS := 66; BYTE_LEN := (66 + 7) / 8 |}.

(** What [json.load] can hand back (numbers with a fraction are left out). *)
#[warnings="-register-all"]
Inductive json : Type :=
| JNull
| JBool (b : bool)
| JInt (z : Z)
| JStr (s : string)
| JList (l : list json)
| JDict (kv : list (string * json)).

(** The file [test/verify_routing_config.json] as [load_config] meets it. *)
Inductive config_file : Type :=
| FileAbsent
| FileUnreadable
| FileJson (cfg : json).

Fixpoint dict_get (k : string) (kv : list (string * json)) : option json :=
  match kv with
  | [] => None
  | (k', v) :: rest => if String.eqb k k' then Some v else dict_get k rest
  end.

Fixpoint is_substring (p s : string) : bool :=
  match s with
  | EmptyString => String.eqb p EmptyString
  | String _ rest => String.prefix p s || is_substring p rest
  end.

Definition json_is_str (k : string) (j : json) : bool :=
  match j with
  | JStr s => String.eqb s k
  | _ => false
  end.

(** [k in cfg] *)
Definition json_contains (k : string) (cfg : json) : result bool :=
  match cfg with
  | JDict kv => Ok (match dict_get k kv with Some _ => true | None => false end)
  | JList l => Ok (existsb (json_is_str k) l)
  | JStr s => Ok (is_substring k s)
  | _ => Raise "TypeError"
  end.

(** [cfg[k]] with a [str] key, once [k in cfg] held. *)
Definition json_getitem (k : string) (cfg : json) : result json :=
  match cfg with
  | JDict kv =>
      match dict_get k kv with
      | Some v => Ok v
      | None => Raise "KeyError"
      end
  | _ => Raise "TypeError"
  end.

(** ASCII white space as [int] skips it around the number. *)
Definition is_space (c : ascii) : bool :=
  let n := Z.of_N (N_of_ascii c) in
  ((9 <=? n) && (n <=? 13)) || (n =? 32).

Fixpoint all_space (s : string) : bool :=
  match s with
  | EmptyString => true
  | String c rest => is_space c && all_space rest
  end.

Fixpoint lstrip (s : string) : string :=
  match s with
  | EmptyString => EmptyString
  | String c rest => if is_space c then lstrip rest else s
  end.

(** Decimal digits with single underscores between them, then white space
    to the end; [after_digit] tells whether the last character read was a
    digit. *)
Fixpoint dec_acc (acc : Z) (after_digit : bool) (s : string) : option Z :=
  match s with
  | EmptyString => if after_digit then Some acc else None
  | String c rest =>
      let n := Z.of_N (N_of_ascii c) in
      if (48 <=? n) && (n <=? 57) then dec_acc (acc * 10 + (n - 48)) true rest
      else if Ascii.eqb c "_" then
        if after_digit then dec_acc acc false rest else None
      else if is_space c then
        if after_digit && all_space rest then Some acc else None
      else None
  end.

(** [int(v)]: integers and booleans convert; a string is read in base ten
    as Python reads ASCII text: white space around, an optional sign,
    digits with single underscores between them; other strings give
    [ValueError], the remaining JSON types [TypeError].  (Python reads
    digits and white space outside ASCII as well, and refuses numbers of
    more than 4300 digits: such strings are not covered.) *)
Definition json_int (v : json) : result Z :=
  match v with
  | JInt z => Ok z
  | JBool b => Ok (if b then 1 else 0)
  | JStr s =>
      let '(sign, digits) :=
        match lstrip s with
        | String "-" rest => (-1, rest)
        | String "+" rest => (1, rest)
        | other => (1, other)
        end in
      match dec_acc 0 false digits with
      | Some n => Ok (sign * n)
      | None => Raise "ValueError"
      end
  | _ => Raise "TypeError"
  end.

Definition load_config (file : config_file) (g : config) : result config :=
  match file with
  | FileAbsent => Ok g
  | FileUnreadable => Ok g
  | FileJson cfg =>
      has_n <- json_contains "NUM_NODES" cfg ;;
      num_nodes <- (if has_n : bool
                    then v <- json_getitem "NUM_NODES" cfg ;; json_int v
                    else Ok (NUM_NODES g)) ;;
      has_b <- json_contains "ID_BITS" cfg ;;
      id_bits <- (if has_b : bool
                  then v <- json_getitem "ID_BITS" cfg ;; json_int v
                  else Ok (ID_BITS g)) ;;
      Ok {| NUM_NODES := num_nodes; ID_BITS := id_bits;
            BYTE_LEN := (id_bits + 7) / 8 |}
  end.

(** ** Identifier derivation *)

(** [l[:n]] *)
Definition slice_to {A : Type} (l : list A) (n : Z) : list A :=
  if n <? 0 then firstn (Z.to_nat (Z.of_nat (List.length l) + n)) l
  else firstn (Z.to_nat n) l.

Definition get_id_from_string (g : config) (s : string) : result string :=
  let h := sha1 (encode_utf8 s) in
  let buf := slice_to h (BYTE_LEN g) in
  let extra_bits := BYTE_LEN g * 8 - ID_BITS g in
  buf <- (if extra_bits >? 0 then
            let mask := Z.shiftr 0xFF extra_bits in
            match buf with
            | b0 :: rest => Ok (Z.land b0 mask :: rest)
            | [] => Raise "IndexError"
            end
          else Ok buf) ;;
  Ok (hex buf).

(** ** Ring construction *)

Definition range (n : Z) : list Z := map Z.of_nat (seq 0 (Z.to_nat n)).

Definition node_name (i : Z) : string :=
  String.append "koorde-node-" (NilZero.string_of_int (Z.to_int i)).

Fixpoint map_result {A B : Type} (f : A -> result B) (l : list A)
  : result (list B) :=
  match l with
  | [] => Ok []
  | a :: rest =>
      b <- f a ;;
      bs <- map_result f rest ;;
      Ok (b :: bs)
  end.

Fixpoint insert_sorted (x : string) (l : list string) : list string :=
  match l with
  | [] => [x]
  | y :: rest =>
      if String.ltb x y then x :: l else y :: insert_sorted x rest
  end.

(** [sorted(ids)] on strings: ascending in the order of [str], which compares
    character by character.  Equal strings are indistinguishable, so every
    sorting algorithm returns this list. *)
Definition sorted (l : list string) : list string :=
  fold_right insert_sorted [] l.

Definition get_node_ids (g : config) : result (list string) :=
  ids <- map_result (fun i => get_id_from_string g (node_name i))
                    (range (NUM_NODES g)) ;;
  Ok (sorted ids).

(** ** Successor rule *)

Fixpoint first_at_least (key_int : Z) (node_ids : list string)
  : result (option string) :=
  match node_ids with
  | [] => Ok None
  | node_hex :: rest =>
      node_int <- int16 node_hex ;;
      if node_int >=? key_int then Ok (Some node_hex)
      else first_at_least key_int rest
  end.

Definition get_responsible_node (key_hex : string) (node_ids : list string)
  : result string :=
  key_int <- int16 key_hex ;;
  found <- first_at_least key_int node_ids ;;
  match found with
  | Some node_hex => Ok node_hex
  | None =>
      match node_ids with
      | first :: _ => Ok first
      | [] => Raise "IndexError"
      end
  end.

(** ** Comparison with the live system *)

(** What [requests.get] does for one URL: it raises, or it returns a
    response with a status code and possibly an [X-Node-ID] header. *)
Inductive http_outcome : Type :=
| NetworkError
| Response (status_code : Z) (x_node_id : option string).

(** [s.replace("0x", "")]: every occurrence, scanning left to right. *)
Fixpoint replace_0x (s : string) : string :=
  match s with
  | EmptyString => EmptyString
  | String c rest =>
      match rest with
      | String c' rest' =>
          if Ascii.eqb c "0" && Ascii.eqb c' "x" then replace_0x rest'
          else String c (replace_0x rest)
      | EmptyString => String c EmptyString
      end
  end.

Fixpoint zeros (n : nat) : string :=
  match n with
  | O => EmptyString
  | S n' => String "0" (zeros n')
  end.

(** An octet that continues a UTF-8 sequence. *)
Definition is_continuation (c : ascii) : bool :=
  let n := Z.of_N (N_of_ascii c) in
  (128 <=? n) && (n <=? 191).

(** [len(s)]: the number of code points of the [str], that is of the
    octets that do not continue a sequence. *)
Fixpoint str_len (s : string) : nat :=
  match s with
  | EmptyString => O
  | String c rest =>
      if is_continuation c then str_len rest else S (str_len rest)
  end.

(** [s.zfill(width)]: the width is converted to a machine-size signed
    integer (64 bits), which fails with [OverflowError] outside its range;
    otherwise zeros are put in front of the text, after a leading sign, up
    to [width] code points.  (A width inside the range but beyond the
    memory at hand makes Python raise [MemoryError]; the statements below
    about the padded text keep [BYTE_LEN] to the twenty octets of the
    digest.) *)
Definition zfill (s : string) (width : Z) : result string :=
  if (width <? - 2 ^ 63) || (2 ^ 63 - 1 <? width) then Raise "OverflowError"
  else
    let len := Z.of_nat (str_len s) in
    if len >=? width then Ok s
    else
      let fill := zeros (Z.to_nat (width - len)) in
      match s with
      | String c rest =>
          if Ascii.eqb c "+" || Ascii.eqb c "-"
          then Ok (String c (String.append fill rest))
          else Ok (String.append fill s)
      | EmptyString => Ok fill
      end.

(** What the loop prints for one URL after the expected node. *)
Inductive verdict : Type :=
| Matched (actual_node : string)
| Mismatched (actual_node : string)
| StatusFailed (status_code : Z)
| RequestFailed.

Record tally : Type := Tally {
  match_count : Z;
  total_count : Z
}.

Definition normalize_node_id (g : config) (header : option string)
  : result string :=
  let actual_node :=
    replace_0x (match header with Some v => v | None => EmptyString end) in
  zfill actual_node (BYTE_LEN g * 2).

(** The [try] block of the loop body.  An exception raised inside it, by
    the request or by the normalisation, is caught by [except Exception]:
    the loop prints that the request failed and goes on, the tally as it
    was.  Standard output is taken to accept the text printed. *)
Definition check_response (g : config) (expected_node : string)
    (out : http_outcome) (t : tally) : verdict * tally :=
  match out with
  | NetworkError => (RequestFailed, t)
  | Response status hdr =>
      if negb (status =? 200) then (StatusFailed status, t)
      else
        match normalize_node_id g hdr with
        | Raise _ => (RequestFailed, t)
        | Ok actual_node =>
            if String.eqb actual_node expected_node
            then (Matched actual_node,
                  {| match_count := match_count t + 1;
                     total_count := total_count t + 1 |})
            else (Mismatched actual_node,
                  {| match_count := match_count t;
                     total_count := total_count t + 1 |})
        end
  end.

Record key_report : Type := KeyReport {
  url : string;
  key_id : string;
  expected_node : string;
  outcome : verdict
}.

Fixpoint for_urls (g : config) (node_ids : list string)
    (net : string -> http_outcome) (urls : list string) (t : tally)
  : result (list key_report * tally) :=
  match urls with
  | [] => Ok ([], t)
  | u :: rest =>
      key_hex <- get_id_from_string g u ;;
      expected <- get_responsible_node key_hex node_ids ;;
      let '(v, t') := check_response g expected (net u) t in
      r <- for_urls g node_ids net rest t' ;;
      Ok ({| url := u; key_id := key_hex; expected_node := expected;
             outcome := v |} :: fst r, snd r)
  end.

Definition urls : list string :=
  [ "https://httpbin.org/get";
    "https://www.gstatic.com/generate_204";
    "https://www.google.com/robots.txt";
    "https://example.org";
    "https://neverssl.com";
    "https://httpbin.org/uuid";
    "https://httpbin.org/html";
    "https://www.wikipedia.org/" ].

Record summary : Type := Summary {
  ring : list string;
  reports : list key_report;
  final : tally
}.

Definition test_routing (file : config_file) (net : string -> http_outcome)
  : result summary :=
  g <- load_config file default_config ;;
  node_ids <- get_node_ids g ;;
  r <- for_urls g node_ids net urls {| match_count := 0; total_count := 0 |} ;;
  Ok {| ring := node_ids; reports := fst r; final := snd r |}.

(** ** Calls on the module globals

    The functions read the module globals at the moment they are called,
    and [load_config] assigns them.  A call is therefore a step from the
    store of globals before it to its outcome and the store after it; an
    exception keeps the assignments made before it was raised. *)

Definition call (A : Type) : Type := config -> result A * config.

Definition load_config_call (file : config_file) : call unit :=
  fun globals =>
    match file with
    | FileAbsent => (Ok tt, globals)
    | FileUnreadable => (Ok tt, globals)
    | FileJson cfg =>
        match json_contains "NUM_NODES" cfg with
        | Raise e => (Raise e, globals)
        | Ok has_n =>
            match (if has_n : bool
                   then v <- json_getitem "NUM_NODES" cfg ;; json_int v
                   else Ok (NUM_NODES globals)) with
            | Raise e => (Raise e, globals)
            | Ok n =>
                let globals1 :=
                  {| NUM_NODES := n; ID_BITS := ID_BITS globals;
                     BYTE_LEN := BYTE_LEN globals |} in
                match json_contains "ID_BITS" cfg with
                | Raise e => (Raise e, globals1)
                | Ok has_b =>
                    match (if has_b : bool
                           then v <- json_getitem "ID_BITS" cfg ;; json_int v
                           else Ok (ID_BITS globals1)) with
                    | Raise e => (Raise e, globals1)
                    | Ok b =>
                        (Ok tt,
                         {| NUM_NODES := n; ID_BITS := b;
                            BYTE_LEN := (b + 7) / 8 |})
                    end
                end
            end
        end
    end.

Definition get_id_from_string_call (s : string) : call string :=
  fun globals => (get_id_from_string globals s, globals).

Definition get_node_ids_call : call (list string) :=
  fun globals => (get_node_ids globals, globals).

Definition get_responsible_node_call (key_hex : string)
    (node_ids : list string) : call string :=
  fun globals => (get_responsible_node key_hex node_ids, globals).

(** One call of a function of the script, and what it returns. *)
Inductive action : Type :=
| CallLoadConfig (file : config_file)
| CallGetId (s : string)
| CallGetNodeIds
| CallGetResponsibleNode (key_hex : string) (node_ids : list string).

Inductive value : Type :=
| VNone
| VStr (s : string)
| VList (l : list string).

Definition returned {A : Type} (f : A -> value) (r : result A * config)
  : result value * config :=
  (match fst r with
   | Ok a => Ok (f a)
   | Raise e => Raise e
   end, snd r).

Definition step (a : action) : call value :=
  fun globals =>
    match a with
    | CallLoadConfig file =>
        returned (fun _ => VNone) (load_config_call file globals)
    | CallGetId s => returned VStr (get_id_from_string_call s globals)
    | CallGetNodeIds => returned VList (get_node_ids_call globals)
    | CallGetResponsibleNode key_hex node_ids =>
        returned VStr (get_responsible_node_call key_hex node_ids globals)
    end.

(** Calls made one after the other in one process, an exception being
    caught before the next call: the outcomes in order and the store at the
    end. *)
Fixpoint session (acts : list action) (globals : config)
  : list (result value) * config :=
  match acts with
  | [] => ([], globals)
  | a :: rest =>
      let '(r, globals1) := step a globals in
      let '(rs, globals2) := session rest globals1 in
      (r :: rs, globals2)
  end.

Definition is_load (a : action) : bool :=
  match a with
  | CallLoadConfig _ => true
  | _ => false
  end.

(** ** Vocabulary of the statements *)

(** The octets read as one big-endian unsigned integer. *)
Definition be_value (bs : bytes) : Z :=
  fold_left (fun acc b => acc * 256 + b) bs 0.

(** The characters [bytes.hex()] writes: [0]-[9] and [a]-[f]. *)
Definition lower_hex (c : ascii) : bool :=
  let n := Z.of_N (N_of_ascii c) in
  ((48 <=? n) && (n <=? 57)) || ((97 <=? n) && (n <=? 102)).

(** A string of lower-case hexadecimal digits. *)
Fixpoint all_lower_hex (s : string) : bool :=
  match s with
  | EmptyString => true
  | String c rest => lower_hex c && all_lower_hex rest
  end.

(** A ring identifier of [w] characters as [bytes.hex()] writes it. *)
Definition is_hex_id (w : nat) (s : string) : Prop :=
  String.length s = w /\ all_lower_hex s = true.

(** [a] spells an integer no greater than the one [b] spells. *)
Definition id_le (a b : string) : Prop :=
  exists x y, int16 a = Ok x /\ int16 b = Ok y /\ x <= y.

(** [s] spells an integer below [k]. *)
Definition below (k : Z) (s : string) : Prop :=
  exists u, int16 s = Ok u /\ u < k.

(** A configuration as the module creates it or [load_config] leaves it,
    with a width the digest can supply. *)
Definition valid_config (g : config) : Prop :=
  1 <= ID_BITS g <= 160 /\ BYTE_LEN g = (ID_BITS g + 7) / 8.

(** [a] spells an integer strictly below the one [b] spells. *)
Definition id_lt (a b : string) : Prop :=
  exists x y, int16 a = Ok x /\ int16 b = Ok y /\ x < y.

(** The order of [str], which [sorted] uses. *)
Definition str_lt (a b : string) : Prop := String.compare a b = Lt.

(** The identifiers of the node names, before sorting. *)
Definition derived_ids (g : config) : list (result string) :=
  map (fun i => get_id_from_string g (node_name i)) (range (NUM_NODES g)).

(** An outcome the loop does not count: the request raised, or the status
    is not 200. *)
Definition unverifiable (out : http_outcome) : Prop :=
  match out with
  | NetworkError => True
  | Response status _ => status <> 200
  end.

(** A verdict of the uncounted kind: the loop printed a failed request. *)
Definition not_verified (v : verdict) : Prop :=
  match v with
  | RequestFailed | StatusFailed _ => True
  | Matched _ | Mismatched _ => False
  end.

(** A verdict of the counted kind. *)
Definition verified (v : verdict) : Prop := ~ not_verified v.

(** A character [int(s, 16)] reads as a digit. *)
Definition is_hex_char (c : ascii) : bool :=
  match digit_value c with
  | Some _ => true
  | None => false
  end.

(** Hexadecimal digits of either case. *)
Fixpoint all_hex (s : string) : bool :=
  match s with
  | EmptyString => true
  | String c rest => is_hex_char c && all_hex rest
  end.

(** A setting after [load_config]: the file's integer when the key is
    there, the previous value otherwise. *)
Definition setting (file_value : option Z) (previous : Z) : Z :=
  match file_value with
  | Some z => z
  | None => previous
  end.

(** What a report says before the collaborator is asked. *)
Definition prediction (r : key_report) : string * string * string :=
  (url r, key_id r, expected_node r).

Definition is_matched (v : verdict) : bool :=
  match v with
  | Matched _ => true
  | _ => false
  end.

Definition is_counted (v : verdict) : bool :=
  match v with
  | Matched _ | Mismatched _ => true
  | _ => false
  end.

(** The number of reports whose verdict satisfies [p]. *)
Definition count_reports (p : verdict -> bool) (reps : list key_report) : Z :=
  Z.of_nat (List.length (filter (fun r => p (outcome r)) reps)).

(** * Properties *)

(** ** The digest is twenty octets *)

Lemma be_bytes_length (n : nat) (x : Z) : List.length (Sha1.be_bytes n x) = n.
Proof.
  unfold Sha1.be_bytes.
  now rewrite length_map, length_rev, length_seq.
Qed.

Lemma be_bytes_range (n : nat) (x : Z) : Forall is_byte (Sha1.be_bytes n x).
Proof.
  unfold Sha1.be_bytes.
  apply Forall_map, Forall_forall.
  intros i _. unfold is_byte.
  apply Z.mod_pos_bound. lia.
Qed.

Lemma sha1_length (m : bytes) : List.length (sha1 m) = 20%nat.
Proof.
  unfold sha1, Sha1.digest.
  destruct (Sha1.blocks _ _ _) as [[[[a b] c] d] e].
  now rewrite !length_app, !be_bytes_length.
Qed.

Lemma sha1_range (m : bytes) : Forall is_byte (sha1 m).
Proof.
  unfold sha1, Sha1.digest.
  destruct (Sha1.blocks _ _ _) as [[[[a b] c] d] e].
  repeat (apply Forall_app; split); apply be_bytes_range.
Qed.

(** ** Hexadecimal text *)

Lemma nibble_cases (d : Z) :
  0 <= d < 16 ->
  d = 0 \/ d = 1 \/ d = 2 \/ d = 3 \/ d = 4 \/ d = 5 \/ d = 6 \/ d = 7 \/
  d = 8 \/ d = 9 \/ d = 10 \/ d = 11 \/ d = 12 \/ d = 13 \/ d = 14 \/ d = 15.
Proof. lia. Qed.

Lemma digit_value_hex_digit (d : Z) :
  0 <= d < 16 -> digit_value (hex_digit d) = Some d /\ lower_hex (hex_digit d) = true.
Proof.
  intros H. apply nibble_cases in H.
  repeat (destruct H as [H | H]; [subst d; split; reflexivity |]).
  subst d; split; reflexivity.
Qed.

Lemma byte_nibbles (b : Z) :
  is_byte b -> 0 <= b / 16 < 16 /\ 0 <= b mod 16 < 16.
Proof.
  unfold is_byte. intros H. split.
  - split; [apply Z.div_pos; lia | apply Z.div_lt_upper_bound; lia].
  - apply Z.mod_pos_bound. lia.
Qed.

Lemma hex_length (bs : bytes) :
  String.length (hex bs) = (2 * List.length bs)%nat.
Proof.
  induction bs as [| b bs IH]; simpl; [reflexivity | rewrite IH; lia].
Qed.

Lemma hex_lower (bs : bytes) :
  Forall is_byte bs -> all_lower_hex (hex bs) = true.
Proof.
  induction 1 as [| b bs Hb _ IH]; simpl; [reflexivity |].
  destruct (byte_nibbles b Hb) as [Hhi Hlo].
  destruct (digit_value_hex_digit _ Hhi) as [_ ->].
  destruct (digit_value_hex_digit _ Hlo) as [_ ->].
  exact IH.
Qed.

Lemma hex_acc_hex (bs : bytes) :
  Forall is_byte bs ->
  forall acc, hex_acc acc (hex bs) = Some (fold_left (fun a b => a * 256 + b) bs acc).
Proof.
  induction 1 as [| b bs Hb _ IH]; intros acc; simpl; [reflexivity |].
  destruct (byte_nibbles b Hb) as [Hhi Hlo].
  destruct (digit_value_hex_digit _ Hhi) as [-> _].
  destruct (digit_value_hex_digit _ Hlo) as [-> _].
  rewrite IH. do 2 f_equal.
  pose proof (Z.div_mod b 16). lia.
Qed.

Lemma int16_hex (bs : bytes) :
  bs <> [] -> Forall is_byte bs -> int16 (hex bs) = Ok (be_value bs).
Proof.
  intros Hne Hb. unfold int16.
  rewrite (hex_acc_hex bs Hb 0).
  destruct bs; [congruence | reflexivity].
Qed.

Lemma lower_hex_digit (c : ascii) :
  lower_hex c = true ->
  exists x, digit_value c = Some x /\ 0 <= x < 16 /\
    let n := Z.of_N (N_of_ascii c) in
    (x = n - 48 /\ 48 <= n <= 57) \/ (x = n - 87 /\ 97 <= n <= 102).
Proof.
  unfold lower_hex, digit_value.
  set (n := Z.of_N (N_of_ascii c)). cbv zeta.
  destruct ((48 <=? n) && (n <=? 57)) eqn:Hd; simpl.
  - intros _. apply andb_true_iff in Hd as [H1 H2].
    exists (n - 48). split; [reflexivity | lia].
  - intros Hl. rewrite Hl. apply andb_true_iff in Hl as [H1 H2].
    exists (n - 87). split; [reflexivity | lia].
Qed.

Lemma hex_acc_shift (s : string) :
  all_lower_hex s = true ->
  exists v, 0 <= v < 16 ^ Z.of_nat (String.length s) /\
    forall acc, hex_acc acc s = Some (acc * 16 ^ Z.of_nat (String.length s) + v).
Proof.
  induction s as [| c s IH]; intros H.
  - exists 0. simpl. split; [lia | intros acc; f_equal; lia].
  - cbn [all_lower_hex] in H. cbn [String.length hex_acc].
    apply andb_true_iff in H as [Hc Hs].
    destruct (lower_hex_digit c Hc) as (x & Hx & Hr & _).
    destruct (IH Hs) as (v & Hv & Hacc).
    rewrite Nat2Z.inj_succ, Z.pow_succ_r by lia.
    set (P := 16 ^ Z.of_nat (String.length s)) in *.
    exists (x * P + v). split; [nia |].
    intros acc. rewrite Hx, Hacc. f_equal. ring.
Qed.

(** On identifiers of one width, the order of [str] is the order of the
    integers they spell. *)
Lemma compare_lower_hex (s : string) :
  forall t acc,
    String.length s = String.length t ->
    all_lower_hex s = true -> all_lower_hex t = true ->
    exists a b, hex_acc acc s = Some a /\ hex_acc acc t = Some b /\
                String.compare s t = (a ?= b).
Proof.
  induction s as [| c s IH]; intros [| d t] acc Hlen Hs Ht;
    simpl in Hlen; try discriminate.
  - exists acc, acc. simpl. now rewrite Z.compare_refl.
  - simpl in Hs, Ht.
    apply andb_true_iff in Hs as [Hc Hs], Ht as [Hd Ht].
    injection Hlen as Hlen.
    destruct (lower_hex_digit c Hc) as (x & Hx & Hxr & Hxn).
    destruct (lower_hex_digit d Hd) as (y & Hy & Hyr & Hyn).
    cbv zeta in Hxn, Hyn.
    assert (Hcmp : Ascii.compare c d = (x ?= y)).
    { unfold Ascii.compare. rewrite <- N2Z.inj_compare.
      destruct (Z.compare_spec x y);
        [apply Z.compare_eq_iff | apply Z.compare_lt_iff
        | apply Z.compare_gt_iff]; lia. }
    simpl. rewrite Hx, Hy, Hcmp.
    destruct (hex_acc_shift s Hs) as (vs & Hvs & Has).
    destruct (hex_acc_shift t Ht) as (vt & Hvt & Hat).
    rewrite <- Hlen in Hvt, Hat.
    set (P := 16 ^ Z.of_nat (String.length s)) in *.
    destruct (Z.compare_spec x y) as [Heq | Hlt | Hgt].
    + subst y. apply IH; assumption.
    + rewrite Has, Hat. do 2 eexists. repeat split.
      symmetry. apply Z.compare_lt_iff. nia.
    + rewrite Has, Hat. do 2 eexists. repeat split.
      symmetry. apply Z.compare_gt_iff. nia.
Qed.

Lemma int16_lower_hex (w : nat) (s : string) :
  (0 < w)%nat -> is_hex_id w s ->
  exists v, int16 s = Ok v /\ 0 <= v < 16 ^ Z.of_nat w.
Proof.
  intros Hw [Hlen Hs].
  destruct (hex_acc_shift s Hs) as (v & Hv & Hacc).
  exists v. rewrite Hlen in Hv. split; [| exact Hv].
  unfold int16. rewrite Hacc. destruct s; [simpl in Hlen; lia |].
  reflexivity.
Qed.

Lemma int16_compare (w : nat) (s t : string) (a b : Z) :
  is_hex_id w s -> is_hex_id w t ->
  int16 s = Ok a -> int16 t = Ok b ->
  String.compare s t = (a ?= b).
Proof.
  intros [Ls Hs] [Lt Ht] Ha Hb.
  destruct (compare_lower_hex s t 0) as (a' & b' & Ea & Eb & Hc);
    [congruence | assumption | assumption |].
  unfold int16 in Ha, Hb. rewrite Ea in Ha. rewrite Eb in Hb.
  destruct s, t; simpl in *; congruence.
Qed.

(** ** The successor rule *)

Lemma id_le_trans (a b c : string) : id_le a b -> id_le b c -> id_le a c.
Proof.
  intros (x & y & Hx & Hy & Hxy) (y' & z & Hy' & Hz & Hyz).
  exists x, z. repeat split; try assumption.
  rewrite Hy in Hy'. injection Hy' as <-. lia.
Qed.

Lemma first_at_least_spec (k : Z) (node_ids : list string) :
  Forall (fun s => exists v, int16 s = Ok v) node_ids ->
  (exists pre owner post v,
      node_ids = pre ++ owner :: post /\
      first_at_least k node_ids = Ok (Some owner) /\
      int16 owner = Ok v /\ k <= v /\ Forall (below k) pre)
  \/ (first_at_least k node_ids = Ok None /\ Forall (below k) node_ids).
Proof.
  induction 1 as [| s l (v & Hv) _ IH]; simpl.
  - right. split; [reflexivity | constructor].
  - rewrite Hv. simpl.
    destruct (v >=? k) eqn:Hge.
    + left. exists [], s, l, v. repeat split; try assumption; try constructor.
      lia.
    + assert (Hs : below k s) by (exists v; split; [assumption | lia]).
      destruct IH as [(pre & o & post & u & -> & Hf & Hu & Hku & Hpre)
                     | (Hf & Hall)].
      * left. exists (s :: pre), o, post, u.
        repeat split; try assumption. now constructor.
      * right. split; [assumption | now constructor].
Qed.

(** C1: on a non-empty ring of fixed-width hexadecimal identifiers sorted
    ascending, [get_responsible_node] returns a member of the ring: the first
    entry whose integer value is at least the key's, all entries before it
    being below the key; when every entry is below the key it returns the
    first entry, which is the smallest.  On the ring 10, 50, 90 the keys 05,
    95 and 50 are owned by 10, 10 and 50. *)
Theorem successor_rule :
  (forall (w : nat) (node_ids : list string) (key_hex : string),
      (0 < w)%nat ->
      node_ids <> [] ->
      Forall (is_hex_id w) node_ids ->
      Sorted id_le node_ids ->
      is_hex_id w key_hex ->
      exists k owner v,
        int16 key_hex = Ok k /\
        get_responsible_node key_hex node_ids = Ok owner /\
        In owner node_ids /\
        int16 owner = Ok v /\
        ((k <= v /\
          exists pre post,
            node_ids = pre ++ owner :: post /\ Forall (below k) pre)
         \/ (Forall (below k) node_ids /\
             owner = hd EmptyString node_ids /\
             Forall (id_le owner) node_ids)))
  /\ get_responsible_node "05" ["10"; "50"; "90"] = Ok "10"
  /\ get_responsible_node "95" ["10"; "50"; "90"] = Ok "10"
  /\ get_responsible_node "50" ["10"; "50"; "90"] = Ok "50".
Proof.
  split; [| repeat split; reflexivity].
  intros w node_ids key_hex Hw Hne Hids Hsorted Hkey.
  destruct (int16_lower_hex w key_hex Hw Hkey) as (k & Hk & _).
  assert (Hall : Forall (fun s => exists v, int16 s = Ok v) node_ids).
  { eapply Forall_impl; [| exact Hids]. intros s Hs.
    destruct (int16_lower_hex w s Hw Hs) as (v & Hv & _). now exists v. }
  unfold get_responsible_node. rewrite Hk. simpl.
  destruct (first_at_least_spec k node_ids Hall)
    as [(pre & o & post & v & Heq & Hf & Hv & Hkv & Hpre) | (Hf & Hbelow)];
    rewrite Hf; simpl.
  - exists k, o, v. repeat split; try assumption.
    + rewrite Heq. apply in_elt.
    + left. split; [assumption |]. now exists pre, post.
  - destruct node_ids as [| first rest]; [congruence |].
    inversion Hall as [| ? ? (v & Hv) _]; subst.
    exists k, first, v. repeat split; try assumption; [now left |].
    right. repeat split; [assumption |].
    constructor; [exists v, v; repeat split; (assumption || lia) |].
    apply Sorted_StronglySorted in Hsorted;
      [| intros a b c; apply id_le_trans].
    now inversion Hsorted.
Qed.

Lemma successor_rule_witness :
  exists k owner v,
    int16 "95" = Ok k /\
    get_responsible_node "95" ["10"; "50"; "90"] = Ok owner /\
    In owner ["10"; "50"; "90"] /\
    int16 owner = Ok v /\
    ((k <= v /\
      exists pre post,
        ["10"; "50"; "90"] = pre ++ owner :: post /\ Forall (below k) pre)
     \/ (Forall (below k) ["10"; "50"; "90"] /\
         owner = hd EmptyString ["10"; "50"; "90"] /\
         Forall (id_le owner) ["10"; "50"; "90"])).
Proof.
  apply (proj1 successor_rule 2%nat ["10"; "50"; "90"] "95").
  - lia.
  - discriminate.
  - repeat constructor.
  - repeat first [apply Sorted_cons | apply Sorted_nil | apply HdRel_nil
                 | apply HdRel_cons];
      do 2 eexists;
      (split; [reflexivity | split; [reflexivity | vm_compute; congruence]]).
  - split; reflexivity.
Defined.

(** ** Identifier derivation stays inside the identifier space *)

Lemma fold_be_shift (bs : bytes) :
  forall acc,
    fold_left (fun a b => a * 256 + b) bs acc =
    acc * 256 ^ Z.of_nat (List.length bs) + be_value bs.
Proof.
  unfold be_value.
  induction bs as [| b bs IH]; intros acc.
  - simpl. lia.
  - cbn [fold_left List.length].
    rewrite IH, (IH (0 * 256 + b)), Nat2Z.inj_succ, Z.pow_succ_r by lia.
    ring.
Qed.

Lemma be_value_cons (b : Z) (bs : bytes) :
  be_value (b :: bs) = b * 256 ^ Z.of_nat (List.length bs) + be_value bs.
Proof.
  unfold be_value at 1. cbn [fold_left]. rewrite fold_be_shift. ring.
Qed.

Lemma be_value_bound (bs : bytes) :
  Forall is_byte bs -> 0 <= be_value bs < 256 ^ Z.of_nat (List.length bs).
Proof.
  induction 1 as [| b bs Hb _ IH].
  - cbn. lia.
  - rewrite be_value_cons. cbn [List.length].
    rewrite Nat2Z.inj_succ, Z.pow_succ_r by lia.
    unfold is_byte in Hb. nia.
Qed.

(** The mask [0xFF >> e] keeps the low [8 - e] bits. *)
Lemma mask_is_mod (b e : Z) :
  0 < e < 8 -> Z.land b (Z.shiftr 255 e) = b mod 2 ^ (8 - e).
Proof.
  intros He. rewrite <- Z.land_ones by lia. f_equal.
  assert (H : e = 1 \/ e = 2 \/ e = 3 \/ e = 4 \/ e = 5 \/ e = 6 \/ e = 7)
    by lia.
  repeat (destruct H as [H | H]; [subst e; reflexivity |]).
  subst e; reflexivity.
Qed.

Lemma valid_config_extra (g : config) :
  valid_config g ->
  1 <= BYTE_LEN g <= 20 /\ 0 <= BYTE_LEN g * 8 - ID_BITS g < 8.
Proof.
  intros [Hb Hl]. rewrite Hl.
  pose proof (Z.div_mod (ID_BITS g + 7) 8).
  pose proof (Z.mod_pos_bound (ID_BITS g + 7) 8).
  lia.
Qed.

Lemma Forall_prefix {A : Type} (P : A -> Prop) (l : list A) :
  Forall P l -> forall n, Forall P (firstn n l).
Proof.
  induction 1 as [| a l Ha _ IH]; intros [| n]; simpl;
    constructor; auto.
Qed.

Lemma digest_prefix (g : config) (s : string) :
  valid_config g ->
  slice_to (sha1 (encode_utf8 s)) (BYTE_LEN g)
    = firstn (Z.to_nat (BYTE_LEN g)) (sha1 (encode_utf8 s))
  /\ List.length (firstn (Z.to_nat (BYTE_LEN g)) (sha1 (encode_utf8 s)))
     = Z.to_nat (BYTE_LEN g)
  /\ Forall is_byte (firstn (Z.to_nat (BYTE_LEN g)) (sha1 (encode_utf8 s))).
Proof.
  intros Hg. destruct (valid_config_extra g Hg) as [Hl _].
  unfold slice_to. destruct (BYTE_LEN g <? 0) eqn:Hneg; [lia |].
  split; [reflexivity | split].
  - rewrite length_firstn, sha1_length. lia.
  - apply Forall_prefix, sha1_range.
Qed.

(** What [get_id_from_string] returns, octet by octet. *)
Lemma get_id_from_string_spec (g : config) (s : string) :
  valid_config g ->
  exists b0 rest,
    firstn (Z.to_nat (BYTE_LEN g)) (sha1 (encode_utf8 s)) = b0 :: rest /\
    is_byte b0 /\ Forall is_byte rest /\
    Z.of_nat (List.length rest) = BYTE_LEN g - 1 /\
    get_id_from_string g s
      = Ok (hex (b0 mod 2 ^ (8 - (BYTE_LEN g * 8 - ID_BITS g)) :: rest)).
Proof.
  intros Hg.
  destruct (valid_config_extra g Hg) as [Hl He].
  destruct (digest_prefix g s Hg) as (Hslice & Hlen & Hrange).
  unfold get_id_from_string. rewrite Hslice.
  destruct (firstn _ _) as [| b0 rest]; [simpl in Hlen; lia |].
  inversion Hrange as [| ? ? Hb0 Hrest]; subst.
  exists b0, rest. repeat split; try assumption; try apply Hb0.
  - simpl in Hlen. lia.
  - destruct (Z.gtb_spec (BYTE_LEN g * 8 - ID_BITS g) 0) as [Hpos | Hpos];
      cbn [bind].
    + rewrite mask_is_mod by lia. reflexivity.
    + replace (BYTE_LEN g * 8 - ID_BITS g) with 0 by lia.
      unfold is_byte in Hb0. rewrite Z.mod_small by (simpl; lia).
      reflexivity.
Qed.

Lemma get_id_from_string_hex (g : config) (s : string) :
  valid_config g ->
  exists id, get_id_from_string g s = Ok id /\
             is_hex_id (2 * Z.to_nat (BYTE_LEN g)) id.
Proof.
  intros Hg.
  destruct (valid_config_extra g Hg) as [Hl He].
  destruct (get_id_from_string_spec g s Hg)
    as (b0 & rest & _ & Hb0 & Hrest & Hlen & ->).
  eexists. split; [reflexivity |].
  assert (Hm : is_byte (b0 mod 2 ^ (8 - (BYTE_LEN g * 8 - ID_BITS g)))).
  { unfold is_byte in *.
    pose proof (Z.mod_pos_bound b0 (2 ^ (8 - (BYTE_LEN g * 8 - ID_BITS g)))
                  ltac:(apply Z.pow_pos_nonneg; lia)).
    pose proof (Z.mod_le b0 (2 ^ (8 - (BYTE_LEN g * 8 - ID_BITS g)))
                  ltac:(lia) ltac:(apply Z.pow_pos_nonneg; lia)).
    lia. }
  split.
  - rewrite hex_length. cbn [List.length]. lia.
  - apply hex_lower. now constructor.
Qed.

(** C3: for [ID_BITS] from 1 to 160 and any name, [get_id_from_string]
    returns an identifier whose integer value is below [2 ^ ID_BITS]: it is
    the first [BYTE_LEN] octets of the digest, read big-endian, reduced
    modulo [2 ^ ID_BITS].  When [ID_BITS] is a multiple of 8 the octets are
    returned as they are; otherwise the top [BYTE_LEN * 8 - ID_BITS] bits of
    the first octet are cleared and the other octets kept. *)
Theorem derived_id_in_space (g : config) (s : string) :
  1 <= ID_BITS g <= 160 ->
  BYTE_LEN g = (ID_BITS g + 7) / 8 ->
  let raw := firstn (Z.to_nat (BYTE_LEN g)) (sha1 (encode_utf8 s)) in
  let extra := BYTE_LEN g * 8 - ID_BITS g in
  exists id v,
    get_id_from_string g s = Ok id /\
    int16 id = Ok v /\
    0 <= v < 2 ^ ID_BITS g /\
    v = be_value raw mod 2 ^ ID_BITS g /\
    (ID_BITS g mod 8 = 0 -> id = hex raw) /\
    (ID_BITS g mod 8 <> 0 ->
       0 < extra < 8 /\
       exists b0 rest,
         raw = b0 :: rest /\ id = hex (b0 mod 2 ^ (8 - extra) :: rest)).
Proof.
  intros Hbits Hlen raw extra.
  assert (Hg : valid_config g) by (split; assumption).
  destruct (valid_config_extra g Hg) as [Hl He]. fold extra in He.
  destruct (get_id_from_string_spec g s Hg)
    as (b0 & rest & Hraw & Hb0 & Hrest & Hk & Hid).
  fold raw in Hraw. fold extra in Hid.
  set (M := 2 ^ (8 - extra)) in *.
  set (P := 256 ^ Z.of_nat (List.length rest)).
  assert (HM : 0 < M) by (apply Z.pow_pos_nonneg; lia).
  assert (HP : 0 < P) by (apply Z.pow_pos_nonneg; lia).
  assert (Hspace : 2 ^ ID_BITS g = M * P).
  { unfold M, P. change 256 with (2 ^ 8).
    rewrite <- Z.pow_mul_r, <- Z.pow_add_r by lia.
    f_equal. unfold extra. lia. }
  pose proof (Z.mod_pos_bound b0 M HM) as Hm.
  pose proof (be_value_bound rest Hrest) as Hr. fold P in Hr.
  assert (Hm255 : is_byte (b0 mod M)).
  { unfold is_byte in *. pose proof (Z.mod_le b0 M). lia. }
  exists (hex (b0 mod M :: rest)), (be_value (b0 mod M :: rest)).
  split; [exact Hid |].
  split; [apply int16_hex; [discriminate | now constructor] |].
  rewrite Hraw, !be_value_cons. fold P. rewrite Hspace.
  split; [nia |]. split; [| split].
  - apply Z.mod_unique_pos with (q := b0 / M); [nia |].
    pose proof (Z.div_mod b0 M). nia.
  - intros Hmod.
    assert (extra = 0) by (unfold extra in *; Z.div_mod_to_equations; lia).
    unfold M. replace (8 - extra) with 8 by lia.
    unfold is_byte in Hb0. rewrite Z.mod_small by (simpl; lia).
    reflexivity.
  - intros Hmod. split.
    + unfold extra in *; Z.div_mod_to_equations; lia.
    + now exists b0, rest.
Qed.

Lemma derived_id_in_space_witness :
  exists id v,
    get_id_from_string default_config "https://example.org" = Ok id /\
    int16 id = Ok v /\
    0 <= v < 2 ^ 66 /\
    id = "034178b2be51214447".
Proof.
  destruct (derived_id_in_space default_config "https://example.org")
    as (id & v & Hid & Hv & Hr & _).
  - vm_compute. split; discriminate.
  - reflexivity.
  - exists id, v. repeat split; try assumption; try apply Hr.
    vm_compute in Hid. congruence.
Defined.

(** ** Ring construction *)

Lemma insert_sorted_perm (x : string) (l : list string) :
  Permutation (insert_sorted x l) (x :: l).
Proof.
  induction l as [| y l IH]; simpl; [reflexivity |].
  destruct (String.ltb x y); [reflexivity |].
  rewrite IH. apply perm_swap.
Qed.

Lemma sorted_perm (l : list string) : Permutation (sorted l) l.
Proof.
  induction l as [| x l IH]; simpl; [reflexivity |].
  unfold sorted in IH. now rewrite insert_sorted_perm, IH.
Qed.

Lemma StronglySorted_impl_in {A : Type} (R R' : A -> A -> Prop) (l : list A) :
  (forall a b, In a l -> In b l -> R a b -> R' a b) ->
  StronglySorted R l -> StronglySorted R' l.
Proof.
  intros Himp Hs. induction Hs as [| a l Hs IH Ha]; constructor.
  - apply IH. intros x y Hx Hy. apply Himp; now right.
  - rewrite Forall_forall in *. intros b Hb.
    apply Himp; [now left | now right | now apply Ha].
Qed.

Section SortedIds.

Variable w : nat.
Hypothesis w_pos : (0 < w)%nat.

(** On identifiers of width [w] the order of [str] is the order of the
    integers. *)
Lemma str_lt_id_lt (a b : string) :
  is_hex_id w a -> is_hex_id w b -> (str_lt a b <-> id_lt a b).
Proof.
  intros Ha Hb.
  destruct (int16_lower_hex w a w_pos Ha) as (x & Hx & _).
  destruct (int16_lower_hex w b w_pos Hb) as (y & Hy & _).
  unfold str_lt. rewrite (int16_compare w a b x y Ha Hb Hx Hy).
  rewrite Z.compare_lt_iff. split.
  - intros Hlt. now exists x, y.
  - intros (x' & y' & Hx' & Hy' & Hlt). congruence.
Qed.

Lemma ltb_hex (a b : string) :
  is_hex_id w a -> is_hex_id w b ->
  if String.ltb a b then id_lt a b else id_le b a.
Proof.
  intros Ha Hb.
  destruct (int16_lower_hex w a w_pos Ha) as (x & Hx & _).
  destruct (int16_lower_hex w b w_pos Hb) as (y & Hy & _).
  unfold String.ltb. rewrite (int16_compare w a b x y Ha Hb Hx Hy).
  destruct (Z.compare_spec x y).
  - exists y, x. repeat split; (assumption || lia).
  - exists x, y. repeat split; (assumption || lia).
  - exists y, x. repeat split; (assumption || lia).
Qed.

Lemma id_lt_le (a b : string) : id_lt a b -> id_le a b.
Proof.
  intros (x & y & Hx & Hy & Hlt). exists x, y.
  repeat split; (assumption || lia).
Qed.

Lemma insert_sorted_ok (x : string) (l : list string) :
  is_hex_id w x -> Forall (is_hex_id w) l ->
  StronglySorted id_le l -> StronglySorted id_le (insert_sorted x l).
Proof.
  intros Hx Hl Hs. induction Hs as [| y l Hs IH Hy]; simpl.
  - repeat constructor.
  - inversion Hl as [| ? ? Hyw Hlw]; subst.
    pose proof (ltb_hex x y Hx Hyw) as Hcmp.
    destruct (String.ltb x y).
    + apply id_lt_le in Hcmp.
      constructor; [now constructor |].
      constructor; [assumption |].
      eapply Forall_impl; [| exact Hy].
      intros z Hz. eapply id_le_trans; eassumption.
    + constructor; [now apply IH |].
      eapply Permutation_Forall;
        [apply Permutation_sym, insert_sorted_perm |].
      now constructor.
Qed.

Lemma sorted_ok (l : list string) :
  Forall (is_hex_id w) l ->
  StronglySorted id_le (sorted l) /\ Forall (is_hex_id w) (sorted l).
Proof.
  intros Hl.
  assert (Hw : Forall (is_hex_id w) (sorted l)).
  { eapply Permutation_Forall; [apply Permutation_sym, sorted_perm |].
    exact Hl. }
  split; [| exact Hw]. clear Hw.
  induction Hl as [| x l Hx Hl IH]; [constructor |].
  change (sorted (x :: l)) with (insert_sorted x (sorted l)).
  apply insert_sorted_ok; try assumption.
  eapply Permutation_Forall; [apply Permutation_sym, sorted_perm |].
  exact Hl.
Qed.

Lemma sorted_strict (l : list string) :
  Forall (is_hex_id w) l -> NoDup l ->
  StronglySorted id_le l -> StronglySorted id_lt l.
Proof.
  intros Hl Hnd Hs.
  induction Hs as [| a l Hs IH Ha]; [constructor |].
  inversion Hl as [| ? ? Haw Hlw]; subst.
  inversion Hnd as [| ? ? Hnotin Hnd']; subst.
  constructor; [now apply IH |].
  rewrite Forall_forall in *. intros b Hb.
  destruct (Ha b Hb) as (x & y & Hx & Hy & Hle).
  exists x, y. repeat split; try assumption.
  destruct (Z.eq_dec x y) as [-> | Hne]; [| lia].
  exfalso. apply Hnotin.
  assert (a = b); [| now subst].
  apply String.compare_eq_iff.
  rewrite (int16_compare w a b y y); auto using Z.compare_refl.
Qed.

End SortedIds.

Lemma map_result_ok {A B : Type} (f : A -> result B) (P : B -> Prop)
    (l : list A) :
  (forall a, exists b, f a = Ok b /\ P b) ->
  exists bs, map_result f l = Ok bs /\ map f l = map Ok bs /\
             Forall P bs /\ List.length bs = List.length l.
Proof.
  intros Hf. induction l as [| a l (bs & Hm & Hmap & HP & Hlen)].
  - exists []. repeat split. constructor.
  - destruct (Hf a) as (b & Hb & Pb).
    exists (b :: bs). simpl. rewrite Hb, Hm, Hmap. simpl.
    repeat split; [now constructor | now rewrite Hlen].
Qed.

(** C2: for [NUM_NODES] at least 1 and [ID_BITS] from 1 to 160,
    [get_node_ids] returns exactly [NUM_NODES] identifiers, those derived
    from the node names; when these are pairwise distinct the result is
    strictly ascending as unsigned integers.  Every identifier is a
    lower-case hexadecimal string of [2 * BYTE_LEN] characters, which is why
    the order of [str] used by [sorted] is the order of the integers. *)
Theorem ring_sorted (g : config) :
  1 <= NUM_NODES g ->
  1 <= ID_BITS g <= 160 ->
  BYTE_LEN g = (ID_BITS g + 7) / 8 ->
  NoDup (derived_ids g) ->
  exists node_ids,
    get_node_ids g = Ok node_ids /\
    Z.of_nat (List.length node_ids) = NUM_NODES g /\
    Permutation (map Ok node_ids) (derived_ids g) /\
    Forall (is_hex_id (2 * Z.to_nat (BYTE_LEN g))) node_ids /\
    StronglySorted id_lt node_ids /\
    StronglySorted str_lt node_ids /\
    (forall a b, In a node_ids -> In b node_ids ->
                 (str_lt a b <-> id_lt a b)).
Proof.
  intros Hn Hbits Hlen Hnd.
  assert (Hg : valid_config g) by (split; assumption).
  destruct (valid_config_extra g Hg) as [Hl _].
  set (w := (2 * Z.to_nat (BYTE_LEN g))%nat).
  assert (Hw : (0 < w)%nat) by (unfold w; lia).
  destruct (map_result_ok (fun i => get_id_from_string g (node_name i))
              (is_hex_id w) (range (NUM_NODES g)))
    as (ids & Hm & Hmap & Hids & Hcount).
  { intros i. apply get_id_from_string_hex, Hg. }
  fold (derived_ids g) in Hmap.
  destruct (sorted_ok w Hw ids Hids) as [Hsorted Hhex].
  assert (Hstrict : StronglySorted id_lt (sorted ids)).
  { apply (sorted_strict w Hw); try assumption.
    eapply Permutation_NoDup; [apply Permutation_sym, sorted_perm |].
    rewrite Hmap in Hnd. eapply NoDup_map_inv, Hnd. }
  assert (Hiff : forall a b, In a (sorted ids) -> In b (sorted ids) ->
                             (str_lt a b <-> id_lt a b)).
  { rewrite Forall_forall in Hhex. intros a b Ha Hb.
    apply (str_lt_id_lt w Hw); auto. }
  exists (sorted ids). unfold get_node_ids. rewrite Hm. simpl.
  repeat split; try assumption.
  - rewrite (Permutation_length (sorted_perm ids)), Hcount.
    unfold range. rewrite length_map, length_seq. lia.
  - rewrite Hmap. apply Permutation_map, sorted_perm.
  - eapply StronglySorted_impl_in; [| exact Hstrict].
    intros a b Ha Hb. now apply Hiff.
  - now apply Hiff.
  - now apply Hiff.
Qed.

Lemma ring_sorted_witness :
  exists node_ids,
    get_node_ids default_config = Ok node_ids /\
    Z.of_nat (List.length node_ids) = 8 /\
    Forall (is_hex_id 18) node_ids /\
    StronglySorted id_lt node_ids.
Proof.
  destruct (ring_sorted default_config)
    as (node_ids & Hr & Hlen & _ & Hhex & Hs & _).
  - vm_compute. discriminate.
  - vm_compute. split; discriminate.
  - reflexivity.
  - vm_compute.
    repeat (constructor;
            [simpl; intros H;
             repeat (destruct H as [H | H]; [discriminate H |]);
             exact H |]).
    constructor.
  - exists node_ids. repeat split; assumption.
Defined.

(** ** Determinism of the derivation *)

Lemma load_config_call_ok (file : config_file) (globals : config) :
  load_config_call file globals
  = match load_config file globals with
    | Ok globals' => (Ok tt, globals')
    | Raise e => (Raise e, snd (load_config_call file globals))
    end.
Proof.
  destruct file as [| | cfg]; try reflexivity.
  cbn [load_config_call load_config].
  destruct (json_contains "NUM_NODES" cfg) as [has_n | e]; [| reflexivity].
  cbn [bind].
  destruct (if has_n then _ else _) as [n | e]; [| reflexivity].
  cbn [bind ID_BITS].
  destruct (json_contains "ID_BITS" cfg) as [has_b | e]; [| reflexivity].
  cbn [bind].
  destruct (if has_b then _ else _) as [b | e]; reflexivity.
Qed.

(** A call of [load_config] keeps [BYTE_LEN] in step with [ID_BITS], also
    when it ends with an exception half way. *)
Lemma load_config_call_len (file : config_file) (globals : config) :
  BYTE_LEN globals = (ID_BITS globals + 7) / 8 ->
  BYTE_LEN (snd (load_config_call file globals))
  = (ID_BITS (snd (load_config_call file globals)) + 7) / 8.
Proof.
  intros H. destruct file as [| | cfg]; try exact H.
  cbn [load_config_call].
  destruct (json_contains "NUM_NODES" cfg) as [has_n | e]; [| exact H].
  destruct (if has_n then _ else _) as [n | e]; [| exact H].
  destruct (json_contains "ID_BITS" cfg) as [has_b | e]; [| exact H].
  destruct (if has_b then _ else _) as [b | e]; [reflexivity | exact H].
Qed.

Lemma step_len (a : action) (globals : config) :
  BYTE_LEN globals = (ID_BITS globals + 7) / 8 ->
  BYTE_LEN (snd (step a globals)) = (ID_BITS (snd (step a globals)) + 7) / 8.
Proof.
  intros H. destruct a; cbn [step returned snd]; try exact H.
  now apply load_config_call_len.
Qed.

Lemma step_no_load (a : action) (globals : config) :
  is_load a = false -> snd (step a globals) = globals.
Proof. destruct a; [discriminate | reflexivity ..]. Qed.

Lemma session_len (acts : list action) :
  forall globals,
    BYTE_LEN globals = (ID_BITS globals + 7) / 8 ->
    BYTE_LEN (snd (session acts globals))
    = (ID_BITS (snd (session acts globals)) + 7) / 8.
Proof.
  induction acts as [| a acts IH]; intros globals H; [exact H |].
  cbn [session].
  pose proof (step_len a globals H) as H1.
  destruct (step a globals) as [r globals1]. cbn [snd] in H1.
  specialize (IH globals1 H1).
  destruct (session acts globals1) as [rs globals2]. exact IH.
Qed.

Lemma session_no_load (acts : list action) :
  forallb (fun a => negb (is_load a)) acts = true ->
  forall globals, snd (session acts globals) = globals.
Proof.
  induction acts as [| a acts IH]; intros Hacts globals; [reflexivity |].
  cbn [forallb] in Hacts. apply andb_true_iff in Hacts as [Ha Hrest].
  apply negb_true_iff in Ha.
  cbn [session].
  pose proof (step_no_load a globals Ha) as H1.
  destruct (step a globals) as [r globals1]. cbn [snd] in H1. subst globals1.
  specialize (IH Hrest globals).
  destruct (session acts globals) as [rs globals2]. exact IH.
Qed.

Lemma session_app (acts1 acts2 : list action) :
  forall globals,
    session (acts1 ++ acts2) globals
    = (fst (session acts1 globals)
         ++ fst (session acts2 (snd (session acts1 globals))),
       snd (session acts2 (snd (session acts1 globals)))).
Proof.
  induction acts1 as [| a acts1 IH]; intros globals.
  - cbn [app session fst snd].
    now destruct (session acts2 globals).
  - cbn [app session].
    destruct (step a globals) as [r globals1].
    rewrite IH.
    destruct (session acts1 globals1) as [rs1 globals2].
    cbn [fst snd]. reflexivity.
Qed.

Lemma get_id_reads_bits (g1 g2 : config) (s : string) :
  ID_BITS g1 = ID_BITS g2 -> BYTE_LEN g1 = BYTE_LEN g2 ->
  get_id_from_string g1 s = get_id_from_string g2 s.
Proof.
  intros Hbits Hlen. unfold get_id_from_string. now rewrite Hlen, Hbits.
Qed.

(** C8: [get_id_from_string] is deterministic.  The only state a call can
    see is the store of module globals, and it leaves the store as it found
    it.  So in one process a call repeated after any calls of the other
    functions returns the identifier it returned before; after calls that
    include [load_config] it still does whenever [ID_BITS] is what it was;
    and two processes, each started at the defaults and loading its own
    configuration file, derive the same identifier for a name whenever the
    files leave them the same [ID_BITS]. *)
Theorem derive_deterministic :
  (forall globals name between,
      forallb (fun a => negb (is_load a)) between = true ->
      exists r outs,
        session (CallGetId name :: between ++ [CallGetId name]) globals
        = (r :: outs ++ [r], globals))
  /\ (forall globals name between,
        BYTE_LEN globals = (ID_BITS globals + 7) / 8 ->
        ID_BITS (snd (session between globals)) = ID_BITS globals ->
        exists r outs,
          fst (session (CallGetId name :: between ++ [CallGetId name])
                 globals)
          = r :: outs ++ [r])
  /\ (forall file1 file2 name,
        ID_BITS (snd (session [CallLoadConfig file1] default_config))
        = ID_BITS (snd (session [CallLoadConfig file2] default_config)) ->
        tl (fst (session [CallLoadConfig file1; CallGetId name]
                   default_config))
        = tl (fst (session [CallLoadConfig file2; CallGetId name]
                     default_config))).
Proof.
  split; [| split].
  - intros globals name between Hbetween.
    change (CallGetId name :: between ++ [CallGetId name])
      with ([CallGetId name] ++ between ++ [CallGetId name]).
    rewrite !session_app.
    cbn [session step returned get_id_from_string_call fst snd app].
    rewrite (session_no_load between Hbetween globals).
    do 2 eexists. reflexivity.
  - intros globals name between Hlen Hbits.
    pose proof (session_len between globals Hlen) as Hlen'.
    change (CallGetId name :: between ++ [CallGetId name])
      with ([CallGetId name] ++ between ++ [CallGetId name]).
    rewrite !session_app.
    cbn [session step returned get_id_from_string_call fst snd app].
    rewrite (get_id_reads_bits (snd (session between globals)) globals name)
      by congruence.
    do 2 eexists. reflexivity.
  - intros file1 file2 name Hbits.
    pose proof (session_len [CallLoadConfig file1] default_config eq_refl)
      as H1.
    pose proof (session_len [CallLoadConfig file2] default_config eq_refl)
      as H2.
    change [CallLoadConfig file1; CallGetId name]
      with ([CallLoadConfig file1] ++ [CallGetId name]).
    change [CallLoadConfig file2; CallGetId name]
      with ([CallLoadConfig file2] ++ [CallGetId name]).
    rewrite !session_app.
    set (g1 := snd (session [CallLoadConfig file1] default_config)) in *.
    set (g2 := snd (session [CallLoadConfig file2] default_config)) in *.
    assert (Hone : forall file,
               exists r, fst (session [CallLoadConfig file] default_config)
                         = [r]).
    { intros file. cbn [session].
      destruct (step (CallLoadConfig file) default_config) as [r g].
      now exists r. }
    destruct (Hone file1) as (r1 & ->). destruct (Hone file2) as (r2 & ->).
    cbn [session step returned get_id_from_string_call fst snd app tl].
    rewrite (get_id_reads_bits g1 g2 name) by congruence.
    reflexivity.
Qed.

Lemma derive_deterministic_witness :
  exists outs,
    fst (session
           (CallGetId "koorde-node-0"
            :: [CallGetNodeIds;
                CallLoadConfig (FileJson (JDict [("NUM_NODES", JInt 3)]));
                CallGetResponsibleNode "05" ["10"; "50"; "90"]]
               ++ [CallGetId "koorde-node-0"]) default_config)
    = Ok (VStr "01bb881d8b5581f92d")
        :: outs ++ [Ok (VStr "01bb881d8b5581f92d")].
Proof.
  destruct (proj1 (proj2 derive_deterministic) default_config
              "koorde-node-0"
              [CallGetNodeIds;
               CallLoadConfig (FileJson (JDict [("NUM_NODES", JInt 3)]));
               CallGetResponsibleNode "05" ["10"; "50"; "90"]])
    as (r & outs & Hrun).
  - reflexivity.
  - reflexivity.
  - exists outs.
    replace (Ok (VStr "01bb881d8b5581f92d")) with r; [exact Hrun |].
    vm_compute in Hrun. now injection Hrun.
Defined.

(** The proviso is needed: a call of [load_config] that changes [ID_BITS]
    changes the identifier of the same name. *)
Lemma derive_depends_on_bits :
  fst (session
         [CallGetId "koorde-node-0";
          CallLoadConfig (FileJson (JDict [("ID_BITS", JInt 8)]));
          CallGetId "koorde-node-0"] default_config)
  = [Ok (VStr "01bb881d8b5581f92d"); Ok VNone; Ok (VStr "59")].
Proof. vm_compute. reflexivity. Qed.

(** ** The empty ring *)

Lemma empty_ring_not_configuration_error :
  get_responsible_node "05" [] <> Raise "ConfigurationError".
Proof. vm_compute. discriminate. Qed.

(** C4, as the code has it: with an empty ring and a key that spells an
    integer, [get_responsible_node] finds no successor and fails on
    [node_ids[0]] with [IndexError]. *)
Theorem empty_ring_index_error (key_hex : string) (k : Z) :
  int16 key_hex = Ok k ->
  get_responsible_node key_hex [] = Raise "IndexError".
Proof.
  intros Hk. unfold get_responsible_node. now rewrite Hk.
Qed.

Lemma empty_ring_index_error_witness :
  get_responsible_node "05" [] = Raise "IndexError".
Proof.
  apply (empty_ring_index_error "05" 5). reflexivity.
Defined.

(** ** Totality of the batch *)

Lemma get_responsible_node_total (w : nat) (node_ids : list string)
    (key_hex : string) :
  (0 < w)%nat -> node_ids <> [] ->
  Forall (is_hex_id w) node_ids -> is_hex_id w key_hex ->
  exists owner, get_responsible_node key_hex node_ids = Ok owner /\
                In owner node_ids.
Proof.
  intros Hw Hne Hids Hkey.
  destruct (int16_lower_hex w key_hex Hw Hkey) as (k & Hk & _).
  assert (Hall : Forall (fun s => exists v, int16 s = Ok v) node_ids).
  { eapply Forall_impl; [| exact Hids]. intros s Hs.
    destruct (int16_lower_hex w s Hw Hs) as (v & Hv & _). now exists v. }
  unfold get_responsible_node. rewrite Hk. simpl.
  destruct (first_at_least_spec k node_ids Hall)
    as [(pre & o & post & v & Heq & Hf & _) | (Hf & _)]; rewrite Hf; simpl.
  - exists o. split; [reflexivity |]. rewrite Heq. apply in_elt.
  - destruct node_ids as [| first rest]; [congruence |].
    exists first. split; [reflexivity | now left].
Qed.

Lemma get_node_ids_total (g : config) :
  valid_config g -> 1 <= NUM_NODES g ->
  exists node_ids,
    get_node_ids g = Ok node_ids /\ node_ids <> [] /\
    Z.of_nat (List.length node_ids) = NUM_NODES g /\
    Forall (is_hex_id (2 * Z.to_nat (BYTE_LEN g))) node_ids.
Proof.
  intros Hg Hn.
  destruct (map_result_ok (fun i => get_id_from_string g (node_name i))
              (is_hex_id (2 * Z.to_nat (BYTE_LEN g))) (range (NUM_NODES g)))
    as (ids & Hm & _ & Hids & Hcount).
  { intros i. apply get_id_from_string_hex, Hg. }
  exists (sorted ids). unfold get_node_ids. rewrite Hm. simpl.
  assert (Hlen : Z.of_nat (List.length (sorted ids)) = NUM_NODES g).
  { rewrite (Permutation_length (sorted_perm ids)), Hcount.
    unfold range. rewrite length_map, length_seq. lia. }
  repeat split; try assumption.
  - intros Hnil. rewrite Hnil in Hlen. simpl in Hlen. lia.
  - eapply Permutation_Forall; [apply Permutation_sym, sorted_perm |].
    exact Hids.
Qed.

Lemma for_urls_total (g : config) (node_ids : list string)
    (net : string -> http_outcome) (us : list string) :
  valid_config g -> node_ids <> [] ->
  Forall (is_hex_id (2 * Z.to_nat (BYTE_LEN g))) node_ids ->
  forall t, exists reps t',
    for_urls g node_ids net us t = Ok (reps, t') /\
    map url reps = us.
Proof.
  intros Hg Hne Hids.
  destruct (valid_config_extra g Hg) as [Hl _].
  induction us as [| u us IH]; intros t.
  - exists [], t. split; reflexivity.
  - cbn [for_urls].
    destruct (get_id_from_string_hex g u Hg) as (key & -> & Hkey).
    destruct (get_responsible_node_total (2 * Z.to_nat (BYTE_LEN g))
                node_ids key ltac:(lia) Hne Hids Hkey) as (owner & Ho & _).
    cbn [bind]. rewrite Ho. cbn [bind].
    destruct (check_response g owner (net u) t) as [v t1].
    destruct (IH t1) as (reps & t' & -> & Hurls).
    cbn [bind fst snd]. do 2 eexists. split; [reflexivity |].
    cbn [map url]. now rewrite Hurls.
Qed.

(** ** Absent configuration file *)

Lemma default_config_valid : valid_config default_config.
Proof. split; [vm_compute; split; discriminate | reflexivity]. Qed.

Lemma absent_run_total (net : string -> http_outcome) :
  exists s,
    test_routing FileAbsent net = Ok s /\
    Z.of_nat (List.length (ring s)) = 8 /\
    map url (reports s) = urls.
Proof.
  unfold test_routing. cbn [load_config bind].
  pose proof default_config_valid as Hg.
  destruct (get_node_ids_total default_config Hg)
    as (node_ids & -> & Hne & Hlen & Hids); [vm_compute; discriminate |].
  cbn [bind].
  destruct (for_urls_total default_config node_ids net urls Hg Hne Hids
              {| match_count := 0; total_count := 0 |})
    as (reps & t & -> & Hurls).
  cbn [bind fst snd]. eexists. split; [reflexivity |].
  cbn [ring reports]. split; assumption.
Qed.

(** C9: when the configuration file is absent, [load_config] returns with
    the globals untouched, hence at the defaults [NUM_NODES = 8],
    [ID_BITS = 66], [BYTE_LEN = 9] (the least number of octets holding 66
    bits), and the run goes through: the ring of 8 nodes is built and every
    URL gets its report. *)
Theorem absent_config_defaults :
  load_config FileAbsent default_config = Ok default_config /\
  NUM_NODES default_config = 8 /\
  ID_BITS default_config = 66 /\
  BYTE_LEN default_config = 9 /\
  8 * (BYTE_LEN default_config - 1) < ID_BITS default_config
    <= 8 * BYTE_LEN default_config /\
  (forall g, load_config FileAbsent g = Ok g) /\
  (forall net, exists s,
      test_routing FileAbsent net = Ok s /\
      Z.of_nat (List.length (ring s)) = 8 /\
      map url (reports s) = urls).
Proof.
  repeat split; try reflexivity; try (vm_compute; congruence).
  apply absent_run_total.
Qed.

(** ** The tally *)

Lemma check_response_unverifiable (g : config) (expected : string)
    (out : http_outcome) (t : tally) :
  unverifiable out ->
  exists v, check_response g expected out t = (v, t) /\ not_verified v.
Proof.
  destruct out as [| status hdr]; cbn [unverifiable check_response]; intros H.
  - now exists RequestFailed.
  - destruct (Z.eqb_spec status 200); [contradiction |].
    now exists (StatusFailed status).
Qed.

Lemma check_response_step (g : config) (expected : string)
    (out : http_outcome) (t : tally) :
  let t' := snd (check_response g expected out t) in
  t' = t
  \/ (total_count t' = total_count t + 1 /\
      (match_count t' = match_count t \/
       match_count t' = match_count t + 1)).
Proof.
  destruct out as [| status hdr]; cbn [check_response snd]; [now left |].
  destruct (negb (status =? 200)); [now left |].
  destruct (normalize_node_id g hdr) as [actual | e]; [| now left].
  destruct (String.eqb _ _); cbn [snd match_count total_count]; right; lia.
Qed.

Lemma for_urls_app (g : config) (node_ids : list string)
    (net : string -> http_outcome) (us1 us2 : list string) :
  forall t,
    for_urls g node_ids net (us1 ++ us2) t =
    (r1 <- for_urls g node_ids net us1 t ;;
     r2 <- for_urls g node_ids net us2 (snd r1) ;;
     Ok (fst r1 ++ fst r2, snd r2)).
Proof.
  induction us1 as [| u us1 IH]; intros t.
  - cbn [app for_urls bind fst snd].
    destruct (for_urls g node_ids net us2 t) as [[reps t'] | e]; reflexivity.
  - cbn [app for_urls].
    destruct (get_id_from_string g u) as [key | e]; [| reflexivity].
    cbn [bind].
    destruct (get_responsible_node key node_ids) as [owner | e];
      [| reflexivity].
    cbn [bind].
    destruct (check_response g owner (net u) t) as [v t1].
    rewrite IH.
    destruct (for_urls g node_ids net us1 t1) as [[reps1 t2] | e];
      [| reflexivity].
    cbn [bind fst snd].
    destruct (for_urls g node_ids net us2 t2) as [[reps2 t3] | e];
      reflexivity.
Qed.

Lemma for_urls_tally (g : config) (node_ids : list string)
    (net : string -> http_outcome) (us : list string) :
  forall t reps t',
    for_urls g node_ids net us t = Ok (reps, t') ->
    0 <= match_count t' - match_count t
      <= total_count t' - total_count t
    /\ total_count t' - total_count t <= Z.of_nat (List.length us).
Proof.
  induction us as [| u us IH]; intros t reps t' H.
  - cbn in H. injection H as _ <-. cbn. lia.
  - cbn [for_urls] in H.
    destruct (get_id_from_string g u) as [key | e]; [| discriminate].
    cbn [bind] in H.
    destruct (get_responsible_node key node_ids) as [owner | e];
      [| discriminate].
    cbn [bind] in H.
    pose proof (check_response_step g owner (net u) t) as Hstep.
    destruct (check_response g owner (net u) t) as [v t1].
    cbn [snd] in Hstep.
    destruct (for_urls g node_ids net us t1) as [[reps1 t2] | e] eqn:Hrest;
      [| discriminate].
    cbn [bind fst snd] in H. injection H as _ <-.
    specialize (IH t1 reps1 t2 Hrest).
    cbn [List.length]. rewrite Nat2Z.inj_succ.
    destruct Hstep as [-> | Hstep]; lia.
Qed.

Lemma for_urls_all_unverifiable (g : config) (node_ids : list string)
    (net : string -> http_outcome) (us : list string) :
  (forall u, unverifiable (net u)) ->
  forall t reps t',
    for_urls g node_ids net us t = Ok (reps, t') ->
    t' = t /\ Forall (fun r => not_verified (outcome r)) reps.
Proof.
  intros Hnet. induction us as [| u us IH]; intros t reps t' H.
  - cbn in H. injection H as <- <-. split; [reflexivity | constructor].
  - cbn [for_urls] in H.
    destruct (get_id_from_string g u) as [key | e]; [| discriminate].
    cbn [bind] in H.
    destruct (get_responsible_node key node_ids) as [owner | e];
      [| discriminate].
    cbn [bind] in H.
    destruct (check_response_unverifiable g owner (net u) t (Hnet u))
      as (v & Hv & Hnv).
    rewrite Hv in H.
    destruct (for_urls g node_ids net us t) as [[reps1 t2] | e] eqn:Hrest;
      [| discriminate].
    cbn [bind fst snd] in H. injection H as <- <-.
    destruct (IH t reps1 t2 Hrest) as [-> Hall].
    split; [reflexivity | now constructor].
Qed.

Lemma absent_all_unverifiable (net : string -> http_outcome) :
  (forall u, unverifiable (net u)) ->
  exists s, test_routing FileAbsent net = Ok s /\
            final s = {| match_count := 0; total_count := 0 |}.
Proof.
  intros Hnet. unfold test_routing. cbn [load_config bind].
  pose proof default_config_valid as Hg.
  destruct (get_node_ids_total default_config Hg)
    as (node_ids & -> & Hne & _ & Hids); [vm_compute; discriminate |].
  cbn [bind].
  destruct (for_urls_total default_config node_ids net urls Hg Hne Hids
              {| match_count := 0; total_count := 0 |})
    as (reps & t & Hrun & _).
  rewrite Hrun. cbn [bind fst snd]. eexists. split; [reflexivity |].
  cbn [final].
  now destruct (for_urls_all_unverifiable _ _ _ _ Hnet _ _ _ Hrun).
Qed.

(** C10: each URL leaves the tally alone or adds one to [total_count], and
    adds one to [match_count] only together with [total_count]; so after
    each URL of a run [0 <= match_count <= total_count], at most the number
    of URLs processed so far, and the tally after the last URL is the one
    of the summary.  When no key could be verified the summary is 0/0. *)
Theorem tally_invariant :
  (forall g expected out t,
      let t' := snd (check_response g expected out t) in
      (total_count t' = total_count t \/
       total_count t' = total_count t + 1) /\
      (match_count t' = match_count t \/
       (match_count t' = match_count t + 1 /\
        total_count t' = total_count t + 1)))
  /\ (forall file net s,
        test_routing file net = Ok s ->
        forall k, (k <= List.length urls)%nat ->
          exists g node_ids reps tk,
            load_config file default_config = Ok g /\
            get_node_ids g = Ok node_ids /\
            for_urls g node_ids net (firstn k urls)
              {| match_count := 0; total_count := 0 |} = Ok (reps, tk) /\
            0 <= match_count tk <= total_count tk /\
            total_count tk <= Z.of_nat k /\
            (k = List.length urls -> tk = final s))
  /\ (forall net,
        (forall u, unverifiable (net u)) ->
        exists s, test_routing FileAbsent net = Ok s /\
                  final s = {| match_count := 0; total_count := 0 |}).
Proof.
  split; [| split].
  - intros g expected out t t'.
    pose proof (check_response_step g expected out t) as H.
    fold t' in H. cbv zeta in H.
    destruct H as [-> | H]; lia.
  - intros file net s H k Hk.
    unfold test_routing in H.
    destruct (load_config file default_config) as [g | e] eqn:Hload;
      [| discriminate].
    cbn [bind] in H.
    destruct (get_node_ids g) as [node_ids | e] eqn:Hring; [| discriminate].
    cbn [bind] in H.
    destruct (for_urls g node_ids net urls _) as [[reps t] | e] eqn:Hrun;
      [| discriminate].
    cbn [bind fst snd] in H. injection H as <-. cbn [final].
    pose proof Hrun as Hsplit.
    rewrite <- (firstn_skipn k urls), for_urls_app in Hsplit.
    destruct (for_urls g node_ids net (firstn k urls) _)
      as [[reps1 tk] | e] eqn:Hprefix; [| discriminate].
    exists g, node_ids, reps1, tk.
    do 3 (split; [first [assumption | reflexivity] |]).
    pose proof (for_urls_tally _ _ _ _ _ _ _ Hprefix) as Ht.
    cbn [match_count total_count] in Ht.
    rewrite length_firstn in Ht.
    split; [lia | split; [lia |]].
    intros ->. rewrite firstn_all in Hprefix. congruence.
  - apply absent_all_unverifiable.
Qed.

Lemma tally_invariant_witness :
  exists g node_ids reps tk,
    load_config FileAbsent default_config = Ok g /\
    get_node_ids g = Ok node_ids /\
    for_urls g node_ids (fun _ => Response 200 (Some "0x123ddd1a5157c34d7"))
      (firstn 8 urls) {| match_count := 0; total_count := 0 |}
    = Ok (reps, tk) /\
    0 <= match_count tk <= total_count tk /\
    total_count tk <= 8 /\
    tk = {| match_count := 4; total_count := 8 |}.
Proof.
  destruct (absent_run_total
              (fun _ => Response 200 (Some "0x123ddd1a5157c34d7")))
    as (s & Hs & _).
  destruct (proj1 (proj2 tally_invariant) FileAbsent _ s Hs 8%nat)
    as (g & node_ids & reps & tk & Hg & Hring & Hrun & Hinv & Hle & Hfin);
    [simpl; lia |].
  exists g, node_ids, reps, tk. repeat split; try assumption; try apply Hinv.
  rewrite (Hfin eq_refl). vm_compute in Hs. now injection Hs as <-.
Defined.

(** ** Keys that could not be verified *)

(** C6: a key whose request raises or is answered with a status other than
    200 gets a failed-request verdict, never a match or a mismatch; the
    batch goes on, and the reports of the other keys and the final tally
    are those of the batch without that key. *)
Theorem unverifiable_skipped (g : config) (node_ids : list string)
    (net : string -> http_outcome) (us1 us2 : list string) (u : string)
    (t : tally) :
  1 <= ID_BITS g <= 160 ->
  BYTE_LEN g = (ID_BITS g + 7) / 8 ->
  node_ids <> [] ->
  Forall (is_hex_id (2 * Z.to_nat (BYTE_LEN g))) node_ids ->
  unverifiable (net u) ->
  exists reps1 rep reps2 t',
    for_urls g node_ids net (us1 ++ u :: us2) t
      = Ok (reps1 ++ rep :: reps2, t') /\
    for_urls g node_ids net (us1 ++ us2) t = Ok (reps1 ++ reps2, t') /\
    map url reps1 = us1 /\ url rep = u /\ map url reps2 = us2 /\
    not_verified (outcome rep) /\
    (forall expected t0,
        snd (check_response g expected (net u) t0) = t0).
Proof.
  intros Hbits Hlen Hne Hids Hu.
  assert (Hg : valid_config g) by (split; assumption).
  destruct (for_urls_total g node_ids net us1 Hg Hne Hids t)
    as (reps1 & t1 & H1 & Hu1).
  destruct (for_urls_total g node_ids net us2 Hg Hne Hids t1)
    as (reps2 & t2 & H2 & Hu2).
  destruct (for_urls_total g node_ids net [u] Hg Hne Hids t1)
    as (repsu & tu & Hone & Huu).
  assert (Hsingle : exists rep, repsu = [rep] /\ tu = t1 /\
                                not_verified (outcome rep)).
  { destruct (for_urls_all_unverifiable g node_ids
                (fun x => net u) [u]
                (fun _ => Hu) t1 repsu tu) as [Ht Hall].
    - cbn [for_urls] in Hone |- *. exact Hone.
    - destruct repsu as [| rep [| rep' rest]]; try discriminate Huu.
      exists rep. inversion Hall; subst. now repeat split. }
  destruct Hsingle as (rep & -> & -> & Hnv).
  assert (Hcons : for_urls g node_ids net (u :: us2) t1
                  = Ok (rep :: reps2, t2)).
  { change (u :: us2) with ([u] ++ us2).
    rewrite for_urls_app, Hone. cbn [bind fst snd].
    rewrite H2. reflexivity. }
  exists reps1, rep, reps2, t2.
  rewrite !for_urls_app, H1. cbn [bind fst snd].
  rewrite Hcons, H2. cbn [bind fst snd].
  repeat split; try assumption.
  - cbn in Huu. congruence.
  - intros expected t0.
    now destruct (check_response_unverifiable g expected (net u) t0 Hu)
      as (v & -> & _).
Qed.

Lemma unverifiable_skipped_witness :
  let g := {| NUM_NODES := 3; ID_BITS := 8; BYTE_LEN := 1 |} in
  let net := fun x : string =>
    if String.eqb x "https://example.org" then Response 500 None
    else Response 200 (Some "0x10") in
  exists reps1 rep reps2 t',
    for_urls g ["10"; "50"; "90"] net
      (["https://httpbin.org/get"] ++
       "https://example.org" :: ["https://neverssl.com"])
      {| match_count := 0; total_count := 0 |}
      = Ok (reps1 ++ rep :: reps2, t') /\
    for_urls g ["10"; "50"; "90"] net
      (["https://httpbin.org/get"] ++ ["https://neverssl.com"])
      {| match_count := 0; total_count := 0 |}
      = Ok (reps1 ++ reps2, t') /\
    outcome rep = StatusFailed 500.
Proof.
  intros g net.
  destruct (unverifiable_skipped g ["10"; "50"; "90"] net
              ["https://httpbin.org/get"] ["https://neverssl.com"]
              "https://example.org"
              {| match_count := 0; total_count := 0 |})
    as (reps1 & rep & reps2 & t' & Hwith & Hwithout & Hu1 & _ & _ & _).
  - vm_compute. split; discriminate.
  - reflexivity.
  - discriminate.
  - repeat constructor.
  - vm_compute. discriminate.
  - exists reps1, rep, reps2, t'. repeat split; try assumption.
    vm_compute in Hwith.
    destruct reps1 as [| r1 [| r2 rest]]; try discriminate Hu1.
    cbn [app] in Hwith. now injection Hwith as _ <- _ _.
Defined.

(** ** Responses with status 200 *)

Lemma str_len_zeros (n : nat) : str_len (zeros n) = n.
Proof. induction n; simpl; congruence. Qed.

Lemma str_len_append (a b : string) :
  str_len (String.append a b) = (str_len a + str_len b)%nat.
Proof.
  induction a as [| c a IH]; cbn [String.append str_len]; [reflexivity |].
  destruct (is_continuation c); rewrite IH; reflexivity.
Qed.

Lemma append_empty_r (a : string) : String.append a EmptyString = a.
Proof. induction a; simpl; congruence. Qed.

(** Inside the machine range [zfill] returns a text of
    [max (len s) width] code points. *)
Lemma zfill_in_range (s : string) (width : Z) :
  - 2 ^ 63 <= width <= 2 ^ 63 - 1 ->
  exists r, zfill s width = Ok r /\
            Z.of_nat (str_len r) = Z.max (Z.of_nat (str_len s)) width.
Proof.
  intros Hw. unfold zfill.
  destruct (Z.ltb_spec width (- 2 ^ 63)); [lia |].
  destruct (Z.ltb_spec (2 ^ 63 - 1) width); [lia |].
  cbn [orb].
  destruct (Z.geb_spec (Z.of_nat (str_len s)) width) as [Hge | Hlt].
  - exists s. split; [reflexivity | lia].
  - destruct s as [| c rest].
    + eexists. split; [reflexivity |].
      rewrite str_len_zeros. cbn [str_len] in *. lia.
    + destruct (Ascii.eqb_spec c "+") as [-> | Hplus];
        [| destruct (Ascii.eqb_spec c "-") as [-> | Hminus]];
        cbn [orb]; eexists; (split; [reflexivity |]).
      * change (str_len (String "+" rest)) with (S (str_len rest)) in *.
        change (str_len (String "+" ?x)) with (S (str_len x)).
        rewrite str_len_append, str_len_zeros. lia.
      * change (str_len (String "-" rest)) with (S (str_len rest)) in *.
        change (str_len (String "-" ?x)) with (S (str_len x)).
        rewrite str_len_append, str_len_zeros. lia.
      * rewrite str_len_append, str_len_zeros. lia.
Qed.

Lemma valid_config_width (g : config) :
  valid_config g -> - 2 ^ 63 <= BYTE_LEN g * 2 <= 2 ^ 63 - 1.
Proof.
  intros Hg. destruct (valid_config_extra g Hg) as [Hl _]. lia.
Qed.

Lemma zfill_empty (width : Z) :
  - 2 ^ 63 <= width <= 2 ^ 63 - 1 ->
  zfill EmptyString width = Ok (zeros (Z.to_nat width)).
Proof.
  intros Hw. unfold zfill.
  destruct (Z.ltb_spec width (- 2 ^ 63)); [lia |].
  destruct (Z.ltb_spec (2 ^ 63 - 1) width); [lia |].
  cbn [orb str_len]. change (Z.of_nat 0) with 0.
  destruct (Z.geb_spec 0 width) as [H1 | H1].
  - replace (Z.to_nat width) with 0%nat by lia. reflexivity.
  - now rewrite Z.sub_0_r.
Qed.

Lemma missing_header_counted_as_mismatch :
  exists s,
    test_routing FileAbsent (fun _ => Response 200 None) = Ok s /\
    final s = {| match_count := 0; total_count := 8 |} /\
    map outcome (reports s)
      = repeat (Mismatched "000000000000000000") 8.
Proof.
  eexists. split; [vm_compute; reflexivity |]. split; reflexivity.
Qed.

(** C5, as the code has it: for [ID_BITS] from 1 to 160 a response with
    status 200 is always counted.  A missing header is read as the empty
    string and padded to [2 * BYTE_LEN] zeros; whatever the header, the
    normalised value is compared with the expected node as a string, the
    verdict is a match or a mismatch, [total_count] grows by one and
    [match_count] grows by one exactly on a match. *)
Theorem status_200_counted (g : config) (expected : string)
    (hdr : option string) (t : tally) :
  1 <= ID_BITS g <= 160 ->
  BYTE_LEN g = (ID_BITS g + 7) / 8 ->
  normalize_node_id g None = Ok (zeros (Z.to_nat (BYTE_LEN g * 2))) /\
  exists actual v t',
    normalize_node_id g hdr = Ok actual /\
    check_response g expected (Response 200 hdr) t = (v, t') /\
    verified v /\
    total_count t' = total_count t + 1 /\
    ((v = Matched actual /\
      actual = expected /\
      match_count t' = match_count t + 1)
     \/ (v = Mismatched actual /\
         actual <> expected /\
         match_count t' = match_count t)).
Proof.
  intros Hbits Hlen.
  assert (Hg : valid_config g) by (split; assumption).
  pose proof (valid_config_width g Hg) as Hw.
  split; [now apply zfill_empty |].
  destruct (zfill_in_range
              (replace_0x (match hdr with
                           | Some v => v
                           | None => EmptyString
                           end)) (BYTE_LEN g * 2) Hw) as (actual & Hz & _).
  fold (normalize_node_id g hdr) in Hz.
  exists actual.
  cbn [check_response Z.eqb Pos.eqb negb]. rewrite Hz.
  destruct (String.eqb_spec actual expected) as [He | He];
    do 2 eexists; (split; [reflexivity |]); (split; [reflexivity |]);
    (split; [intros H; exact H |]); (split; [reflexivity |]).
  - left. now repeat split.
  - right. now repeat split.
Qed.

Lemma status_200_counted_witness :
  normalize_node_id default_config None = Ok "000000000000000000" /\
  check_response default_config "0123ddd1a5157c34d7" (Response 200 None)
    {| match_count := 0; total_count := 0 |}
  = (Mismatched "000000000000000000",
     {| match_count := 0; total_count := 1 |}).
Proof.
  destruct (status_200_counted default_config "0123ddd1a5157c34d7" None
              {| match_count := 0; total_count := 0 |})
    as (Hnone & actual & v & t' & Hnorm & Hcheck & _).
  - vm_compute. split; discriminate.
  - reflexivity.
  - split; [exact Hnone |]. reflexivity.
Defined.

(** ** Normalisation of the reported identifier *)

Lemma lower_hex_is_hex (c : ascii) : lower_hex c = true -> is_hex_char c = true.
Proof.
  intros H. destruct (lower_hex_digit c H) as (x & Hx & _).
  unfold is_hex_char. now rewrite Hx.
Qed.

Lemma all_lower_all_hex (s : string) :
  all_lower_hex s = true -> all_hex s = true.
Proof.
  induction s as [| c s IH]; simpl; [reflexivity |].
  intros H. apply andb_true_iff in H as [Hc Hs].
  now rewrite (lower_hex_is_hex c Hc), IH.
Qed.

Lemma replace_0x_hex (s : string) : all_hex s = true -> replace_0x s = s.
Proof.
  induction s as [| c s IH]; [reflexivity |].
  cbn [all_hex]. intros H. apply andb_true_iff in H as [Hc Hs].
  cbn [replace_0x]. destruct s as [| c' s']; [reflexivity |].
  destruct (Ascii.eqb_spec c' "x") as [-> | Hx].
  - cbn in Hs. discriminate.
  - rewrite andb_false_r. now rewrite (IH Hs).
Qed.

Lemma zeros_length (n : nat) : String.length (zeros n) = n.
Proof. induction n; simpl; congruence. Qed.

Lemma append_length (a b : string) :
  String.length (String.append a b) = (String.length a + String.length b)%nat.
Proof. induction a; simpl; congruence. Qed.

(** A hexadecimal digit is one code point. *)
Lemma hex_char_not_continuation (c : ascii) :
  is_hex_char c = true -> is_continuation c = false.
Proof.
  unfold is_hex_char, digit_value, is_continuation.
  set (n := Z.of_N (N_of_ascii c)). cbv zeta.
  destruct (Z.leb_spec 48 n), (Z.leb_spec n 57), (Z.leb_spec 97 n),
    (Z.leb_spec n 102), (Z.leb_spec 65 n), (Z.leb_spec n 70),
    (Z.leb_spec 128 n), (Z.leb_spec n 191);
    cbn [andb]; intros Hhex; try reflexivity; try discriminate Hhex; lia.
Qed.

Lemma str_len_hex (s : string) :
  all_hex s = true -> str_len s = String.length s.
Proof.
  induction s as [| c s IH]; [reflexivity |].
  cbn [all_hex str_len String.length]. intros H.
  apply andb_true_iff in H as [Hc Hs].
  now rewrite (hex_char_not_continuation c Hc), IH.
Qed.

Lemma zfill_hex (s : string) (width : Z) :
  all_hex s = true ->
  Z.of_nat (String.length s) <= width <= 2 ^ 63 - 1 ->
  zfill s width
  = Ok (String.append (zeros (Z.to_nat width - String.length s)) s).
Proof.
  intros Hs Hlen. unfold zfill. rewrite (str_len_hex s Hs).
  destruct (Z.ltb_spec width (- 2 ^ 63)); [lia |].
  destruct (Z.ltb_spec (2 ^ 63 - 1) width); [lia |].
  cbn [orb].
  destruct (Z.geb_spec (Z.of_nat (String.length s)) width) as [H1 | H1].
  - replace (Z.to_nat width - String.length s)%nat with 0%nat by lia.
    reflexivity.
  - replace (Z.to_nat (width - Z.of_nat (String.length s)))
      with (Z.to_nat width - String.length s)%nat by lia.
    destruct s as [| c rest]; [now rewrite append_empty_r |].
    cbn [all_hex] in Hs. apply andb_true_iff in Hs as [Hc _].
    destruct (Ascii.eqb_spec c "+") as [-> | _]; [discriminate |].
    destruct (Ascii.eqb_spec c "-") as [-> | _]; [discriminate |].
    reflexivity.
Qed.

Lemma hex_acc_zeros (n : nat) (s : string) :
  hex_acc 0 (String.append (zeros n) s) = hex_acc 0 s.
Proof. induction n as [| n IH]; [reflexivity | exact IH]. Qed.

Lemma all_lower_hex_zeros (n : nat) (s : string) :
  all_lower_hex (String.append (zeros n) s) = all_lower_hex s.
Proof. induction n as [| n IH]; [reflexivity | exact IH]. Qed.

Lemma int16_zeros (n : nat) (s : string) :
  s <> EmptyString -> int16 (String.append (zeros n) s) = int16 s.
Proof.
  intros Hs. unfold int16. rewrite hex_acc_zeros.
  destruct s; [congruence |]. destruct n; reflexivity.
Qed.

Lemma uppercase_header_mismatch :
  int16 "123DDD1A5157C34D7" = int16 "0123ddd1a5157c34d7" /\
  check_response default_config "0123ddd1a5157c34d7"
    (Response 200 (Some "0x123DDD1A5157C34D7"))
    {| match_count := 0; total_count := 0 |}
  = (Mismatched "0123DDD1A5157C34D7",
     {| match_count := 0; total_count := 1 |}).
Proof. split; reflexivity. Qed.

(** C7, as the code has it: for [ID_BITS] from 1 to 160, a header made of
    an optional [0x] and at most [2 * BYTE_LEN] hexadecimal digits is
    normalised to its digits, left-padded with zeros to exactly
    [2 * BYTE_LEN] characters, the integer unchanged.  The comparison with
    the expected identifier is one of strings: when the digits are
    lower-case it reports a match exactly when the header spells the
    integer of the expected identifier. *)
Theorem header_normalization (g : config) (has_prefix : bool)
    (digits : string) :
  1 <= ID_BITS g <= 160 ->
  BYTE_LEN g = (ID_BITS g + 7) / 8 ->
  all_hex digits = true ->
  digits <> EmptyString ->
  Z.of_nat (String.length digits) <= BYTE_LEN g * 2 ->
  let header :=
    String.append (if has_prefix then "0x" else EmptyString) digits in
  exists actual,
    normalize_node_id g (Some header) = Ok actual /\
    actual = String.append
               (zeros (Z.to_nat (BYTE_LEN g * 2) - String.length digits))
               digits /\
    Z.of_nat (String.length actual) = BYTE_LEN g * 2 /\
    int16 actual = int16 digits /\
    (all_lower_hex digits = true ->
     forall expected t,
       is_hex_id (Z.to_nat (BYTE_LEN g * 2)) expected ->
       (int16 digits = int16 expected <->
        fst (check_response g expected (Response 200 (Some header)) t)
        = Matched expected)).
Proof.
  intros Hbits Hbl Hhex Hne Hlen header.
  assert (Hg : valid_config g) by (split; assumption).
  pose proof (valid_config_width g Hg) as Hrange.
  assert (Hpos : (0 < String.length digits)%nat).
  { destruct digits; [congruence | simpl; lia]. }
  set (actual := String.append
             (zeros (Z.to_nat (BYTE_LEN g * 2) - String.length digits))
             digits).
  assert (Hnorm : normalize_node_id g (Some header) = Ok actual).
  { unfold normalize_node_id, header.
    assert (Hstrip : replace_0x
              (String.append (if has_prefix then "0x" else EmptyString)
                 digits) = digits).
    { destruct has_prefix; cbn [String.append replace_0x Ascii.eqb
                                  Bool.eqb andb];
        now apply replace_0x_hex. }
    rewrite Hstrip. apply zfill_hex; [assumption | lia]. }
  exists actual. split; [exact Hnorm |]. split; [reflexivity |].
  assert (Hwidth : String.length actual = Z.to_nat (BYTE_LEN g * 2)).
  { unfold actual. rewrite append_length, zeros_length. lia. }
  split; [lia |].
  assert (Hint : int16 actual = int16 digits).
  { unfold actual. now apply int16_zeros. }
  split; [exact Hint |].
  intros Hlower expected t Hexp.
  assert (Hid : is_hex_id (Z.to_nat (BYTE_LEN g * 2)) actual).
  { split; [exact Hwidth |]. unfold actual. rewrite all_lower_hex_zeros.
    exact Hlower. }
  cbn [check_response Z.eqb Pos.eqb negb]. rewrite Hnorm.
  destruct (String.eqb_spec actual expected) as [Heq | Hneq]; cbn [fst].
  - split; [intros _; now rewrite Heq | intros _; congruence].
  - split; [| intros H; discriminate H].
    intros Hsame. exfalso. apply Hneq.
    assert (Hw : (0 < Z.to_nat (BYTE_LEN g * 2))%nat) by lia.
    destruct (int16_lower_hex _ actual Hw Hid) as (a & Ha & _).
    destruct (int16_lower_hex _ expected Hw Hexp) as (b & Hb & _).
    apply String.compare_eq_iff.
    rewrite (int16_compare _ actual expected a b Hid Hexp Ha Hb).
    apply Z.compare_eq_iff. congruence.
Qed.

Lemma header_normalization_witness :
  normalize_node_id default_config (Some "0x123ddd1a5157c34d7")
    = Ok "0123ddd1a5157c34d7" /\
  fst (check_response default_config "0123ddd1a5157c34d7"
         (Response 200 (Some "0x123ddd1a5157c34d7"))
         {| match_count := 0; total_count := 0 |})
  = Matched "0123ddd1a5157c34d7".
Proof.
  destruct (header_normalization default_config true "123ddd1a5157c34d7")
    as (actual & Hnorm & Hact & _ & _ & Hcmp).
  - vm_compute. split; discriminate.
  - reflexivity.
  - reflexivity.
  - discriminate.
  - vm_compute. discriminate.
  - split; [subst actual; exact Hnorm |].
    apply (Hcmp eq_refl "0123ddd1a5157c34d7"
             {| match_count := 0; total_count := 0 |}).
    + split; reflexivity.
    + reflexivity.
Defined.

(** * Further properties of the script *)

(** ** Loading the configuration *)

Lemma load_config_json_inv (cfg : json) (g g' : config) :
  load_config (FileJson cfg) g = Ok g' ->
  exists has_n has_b n b,
    json_contains "NUM_NODES" cfg = Ok has_n /\
    json_contains "ID_BITS" cfg = Ok has_b /\
    (if has_n then (v <- json_getitem "NUM_NODES" cfg ;; json_int v)
     else Ok (NUM_NODES g)) = Ok n /\
    (if has_b then (v <- json_getitem "ID_BITS" cfg ;; json_int v)
     else Ok (ID_BITS g)) = Ok b /\
    g' = {| NUM_NODES := n; ID_BITS := b; BYTE_LEN := (b + 7) / 8 |}.
Proof.
  cbn [load_config]. intros H.
  destruct (json_contains "NUM_NODES" cfg) as [has_n | e]; [| discriminate].
  cbn [bind] in H.
  destruct (if has_n then _ else _) as [n | e] eqn:Hn; [| discriminate].
  cbn [bind] in H.
  destruct (json_contains "ID_BITS" cfg) as [has_b | e]; [| discriminate].
  cbn [bind] in H.
  destruct (if has_b then _ else _) as [b | e] eqn:Hb; [| discriminate].
  cbn [bind] in H. injection H as <-.
  now exists has_n, has_b, n, b.
Qed.

(** X1: [load_config] keeps [BYTE_LEN] the least number of octets that
    hold [ID_BITS] bits: whenever it returns, from globals that had it,
    [BYTE_LEN = (ID_BITS + 7) // 8], that is
    [8 * (BYTE_LEN - 1) < ID_BITS <= 8 * BYTE_LEN]. *)
Theorem load_config_byte_len (file : config_file) (g g' : config) :
  BYTE_LEN g = (ID_BITS g + 7) / 8 ->
  load_config file g = Ok g' ->
  BYTE_LEN g' = (ID_BITS g' + 7) / 8 /\
  8 * (BYTE_LEN g' - 1) < ID_BITS g' <= 8 * BYTE_LEN g'.
Proof.
  intros Hg Hload.
  assert (H : BYTE_LEN g' = (ID_BITS g' + 7) / 8).
  { destruct file as [| | cfg].
    - cbn in Hload. now injection Hload as <-.
    - cbn in Hload. now injection Hload as <-.
    - destruct (load_config_json_inv cfg g g' Hload)
        as (_ & _ & n & b & _ & _ & _ & _ & ->).
      reflexivity. }
  split; [exact H |]. rewrite H. Z.div_mod_to_equations. lia.
Qed.

Lemma load_config_byte_len_witness :
  let g' := {| NUM_NODES := 16; ID_BITS := 12; BYTE_LEN := 2 |} in
  BYTE_LEN g' = (ID_BITS g' + 7) / 8 /\
  8 * (BYTE_LEN g' - 1) < ID_BITS g' <= 8 * BYTE_LEN g'.
Proof.
  apply (load_config_byte_len
           (FileJson (JDict [("ID_BITS", JInt 12); ("NUM_NODES", JInt 16)]))
           default_config).
  - reflexivity.
  - reflexivity.
Defined.

(** X2: a configuration file holding a JSON object overrides exactly the
    settings it names: [NUM_NODES] and [ID_BITS] take the file's integers
    where the keys are present and keep their values where they are not,
    other keys are ignored, and [BYTE_LEN] follows the resulting
    [ID_BITS]. *)
Theorem load_config_overrides (kv : list (string * json)) (g : config)
    (n b : option Z) :
  dict_get "NUM_NODES" kv = option_map JInt n ->
  dict_get "ID_BITS" kv = option_map JInt b ->
  load_config (FileJson (JDict kv)) g
  = Ok {| NUM_NODES := setting n (NUM_NODES g);
          ID_BITS := setting b (ID_BITS g);
          BYTE_LEN := (setting b (ID_BITS g) + 7) / 8 |}.
Proof.
  intros Hn Hb.
  cbn [load_config json_contains json_getitem bind].
  rewrite Hn, Hb. destruct n, b; reflexivity.
Qed.

Lemma load_config_overrides_witness :
  load_config
    (FileJson (JDict [("comment", JStr "generated"); ("NUM_NODES", JInt 16)]))
    default_config
  = Ok {| NUM_NODES := 16; ID_BITS := 66; BYTE_LEN := 9 |}.
Proof.
  apply (load_config_overrides _ default_config (Some 16) None);
    reflexivity.
Defined.

(** X3: only a JSON object can change the settings.  When the file holds
    any other JSON value, [load_config] either leaves [NUM_NODES] and
    [ID_BITS] as they were or fails with [TypeError]; for [null], a boolean
    or a number it always fails, and the failure ends the run. *)
Theorem load_config_not_object (j : json) (g : config) :
  (forall kv, j <> JDict kv) ->
  (forall g', load_config (FileJson j) g = Ok g' ->
              NUM_NODES g' = NUM_NODES g /\ ID_BITS g' = ID_BITS g) /\
  (forall e, load_config (FileJson j) g = Raise e -> e = "TypeError") /\
  (match j with
   | JNull | JBool _ | JInt _ =>
       forall net, test_routing (FileJson j) net = Raise "TypeError"
   | _ => True
   end).
Proof.
  intros Hj.
  destruct j as [| bo | z | s | l | kv];
    try (split; [| split]; [intros g' H; discriminate H
                          | intros e H; cbn in H; congruence
                          | reflexivity]).
  - (* a string *)
    split; [| split; [| exact I]].
    + intros g' H. cbn [load_config json_contains json_getitem bind] in H.
      destruct (is_substring "NUM_NODES" s); [discriminate |].
      destruct (is_substring "ID_BITS" s); [discriminate |].
      cbn [bind] in H. now injection H as <-.
    + intros e H. cbn [load_config json_contains json_getitem bind] in H.
      destruct (is_substring "NUM_NODES" s); [cbn in H; congruence |].
      destruct (is_substring "ID_BITS" s); cbn in H; congruence.
  - (* a list *)
    split; [| split; [| exact I]].
    + intros g' H. cbn [load_config json_contains json_getitem bind] in H.
      destruct (existsb (json_is_str "NUM_NODES") l); [discriminate |].
      destruct (existsb (json_is_str "ID_BITS") l); [discriminate |].
      cbn [bind] in H. now injection H as <-.
    + intros e H. cbn [load_config json_contains json_getitem bind] in H.
      destruct (existsb (json_is_str "NUM_NODES") l);
        [cbn in H; congruence |].
      destruct (existsb (json_is_str "ID_BITS") l); cbn in H; congruence.
  - (* an object is excluded *)
    exfalso. now apply (Hj kv).
Qed.

Lemma load_config_not_object_witness :
  test_routing (FileJson (JInt 16)) (fun _ => NetworkError)
  = Raise "TypeError".
Proof.
  apply (proj2 (proj2 (load_config_not_object (JInt 16) default_config
                         ltac:(discriminate)))).
Defined.

(** X4: loading the same file again changes nothing: the configuration
    [load_config] returns is a fixed point of loading that file. *)
Theorem load_config_idempotent (file : config_file) (g g' : config) :
  load_config file g = Ok g' -> load_config file g' = Ok g'.
Proof.
  destruct file as [| | cfg]; try (intros _; reflexivity).
  intros H.
  destruct (load_config_json_inv cfg g g' H)
    as (has_n & has_b & n & b & Hcn & Hcb & Hn & Hb & ->).
  cbn [load_config]. rewrite Hcn, Hcb. cbn [bind NUM_NODES ID_BITS].
  destruct has_n, has_b; cbn [bind] in *.
  - now rewrite Hn, Hb.
  - rewrite Hn. cbn [bind]. reflexivity.
  - rewrite Hb. cbn [bind]. reflexivity.
  - reflexivity.
Qed.

Lemma load_config_idempotent_witness :
  load_config (FileJson (JDict [("ID_BITS", JInt 12)]))
    {| NUM_NODES := 8; ID_BITS := 12; BYTE_LEN := 2 |}
  = Ok {| NUM_NODES := 8; ID_BITS := 12; BYTE_LEN := 2 |}.
Proof.
  apply (load_config_idempotent _ default_config). reflexivity.
Defined.

(** ** The ring, whatever the identifiers *)

Lemma range_length (n : Z) : List.length (range n) = Z.to_nat n.
Proof. unfold range. now rewrite length_map, length_seq. Qed.

(** X5: for [ID_BITS] from 1 to 160 and any [NUM_NODES], [get_node_ids]
    returns the derived identifiers, colliding ones included: the ring has
    [NUM_NODES] entries (none when [NUM_NODES] is zero or negative) and is
    ascending, not necessarily strictly, as unsigned integers. *)
Theorem ring_keeps_collisions (g : config) :
  1 <= ID_BITS g <= 160 ->
  BYTE_LEN g = (ID_BITS g + 7) / 8 ->
  exists node_ids,
    get_node_ids g = Ok node_ids /\
    List.length node_ids = Z.to_nat (NUM_NODES g) /\
    Permutation (map Ok node_ids) (derived_ids g) /\
    StronglySorted id_le node_ids.
Proof.
  intros Hbits Hlen.
  assert (Hg : valid_config g) by (split; assumption).
  destruct (valid_config_extra g Hg) as [Hl _].
  set (w := (2 * Z.to_nat (BYTE_LEN g))%nat).
  assert (Hw : (0 < w)%nat) by (unfold w; lia).
  destruct (map_result_ok (fun i => get_id_from_string g (node_name i))
              (is_hex_id w) (range (NUM_NODES g)))
    as (ids & Hm & Hmap & Hids & Hcount).
  { intros i. apply get_id_from_string_hex, Hg. }
  fold (derived_ids g) in Hmap.
  destruct (sorted_ok w Hw ids Hids) as [Hsorted _].
  exists (sorted ids). unfold get_node_ids. rewrite Hm. cbn [bind].
  repeat split; try assumption.
  - now rewrite (Permutation_length (sorted_perm ids)), Hcount, range_length.
  - rewrite Hmap. apply Permutation_map, sorted_perm.
Qed.

Lemma ring_keeps_collisions_witness :
  exists node_ids,
    get_node_ids {| NUM_NODES := 8; ID_BITS := 1; BYTE_LEN := 1 |}
      = Ok node_ids /\
    List.length node_ids = 8%nat /\
    node_ids = ["00"; "01"; "01"; "01"; "01"; "01"; "01"; "01"].
Proof.
  destruct (ring_keeps_collisions
              {| NUM_NODES := 8; ID_BITS := 1; BYTE_LEN := 1 |})
    as (node_ids & Hring & Hlen & _).
  - vm_compute. split; discriminate.
  - reflexivity.
  - exists node_ids. repeat split; try assumption.
    vm_compute in Hring. congruence.
Defined.

Lemma load_config_default_len (file : config_file) (g : config) :
  load_config file default_config = Ok g ->
  BYTE_LEN g = (ID_BITS g + 7) / 8.
Proof.
  destruct file as [| | cfg]; intros H.
  - cbn in H. now injection H as <-.
  - cbn in H. now injection H as <-.
  - destruct (load_config_json_inv cfg default_config g H)
      as (_ & _ & n & b & _ & _ & _ & _ & ->).
    reflexivity.
Qed.

(** X6: a node count of zero or less makes the ring empty, and the run
    ends with [IndexError] at the first URL, before any request is
    counted: the lookup is outside the [try]. *)
Theorem no_nodes_index_error (file : config_file) (g : config)
    (net : string -> http_outcome) :
  load_config file default_config = Ok g ->
  1 <= ID_BITS g <= 160 ->
  NUM_NODES g <= 0 ->
  get_node_ids g = Ok [] /\
  test_routing file net = Raise "IndexError".
Proof.
  intros Hload Hbits Hn.
  assert (Hg : valid_config g).
  { split; [assumption | now apply (load_config_default_len file)]. }
  assert (Hring : get_node_ids g = Ok []).
  { unfold get_node_ids, range.
    replace (Z.to_nat (NUM_NODES g)) with 0%nat by lia. reflexivity. }
  split; [exact Hring |].
  unfold test_routing. rewrite Hload. cbn [bind]. rewrite Hring.
  cbn [bind]. unfold urls. cbn [for_urls].
  destruct (get_id_from_string_hex g "https://httpbin.org/get" Hg)
    as (key & -> & Hkey).
  destruct (valid_config_extra g Hg) as [Hl _].
  assert (Hw : (0 < 2 * Z.to_nat (BYTE_LEN g))%nat) by lia.
  destruct (int16_lower_hex _ key Hw Hkey) as (k & Hk & _).
  cbn [bind]. unfold get_responsible_node. rewrite Hk. reflexivity.
Qed.

Lemma no_nodes_index_error_witness :
  get_node_ids {| NUM_NODES := 0; ID_BITS := 66; BYTE_LEN := 9 |} = Ok [] /\
  test_routing (FileJson (JDict [("NUM_NODES", JInt 0)]))
    (fun _ => Response 200 (Some "0x0"))
  = Raise "IndexError".
Proof.
  apply (no_nodes_index_error
           (FileJson (JDict [("NUM_NODES", JInt 0)]))
           {| NUM_NODES := 0; ID_BITS := 66; BYTE_LEN := 9 |}).
  - reflexivity.
  - vm_compute. split; discriminate.
  - vm_compute. discriminate.
Defined.

(** ** The successor rule on a sorted ring *)

Lemma first_at_least_in (k : Z) (node_ids : list string) (o : string) :
  first_at_least k node_ids = Ok (Some o) -> In o node_ids.
Proof.
  induction node_ids as [| h l IH]; cbn [first_at_least]; [discriminate |].
  destruct (int16 h) as [v | e]; [| discriminate]. cbn [bind].
  destruct (v >=? k).
  - intros H. injection H as <-. now left.
  - intros H. right. now apply IH.
Qed.

Lemma get_responsible_node_in (key_hex : string) (node_ids : list string)
    (o : string) :
  get_responsible_node key_hex node_ids = Ok o -> In o node_ids.
Proof.
  unfold get_responsible_node.
  destruct (int16 key_hex) as [k | e]; [| discriminate]. cbn [bind].
  destruct (first_at_least k node_ids) as [[found |] | e] eqn:Hf;
    [| | discriminate]; cbn [bind].
  - intros H. injection H as <-. eapply first_at_least_in, Hf.
  - destruct node_ids as [| first rest]; [discriminate |].
    intros H. injection H as <-. now left.
Qed.

Lemma same_value_same_id (w : nat) (a b : string) (v : Z) :
  is_hex_id w a -> is_hex_id w b ->
  int16 a = Ok v -> int16 b = Ok v -> a = b.
Proof.
  intros Ha Hb Hva Hvb. apply String.compare_eq_iff.
  rewrite (int16_compare w a b v v Ha Hb Hva Hvb).
  apply Z.compare_refl.
Qed.

Lemma first_at_least_member (w : nat) (node_ids : list string)
    (n : string) (k : Z) :
  Forall (is_hex_id w) node_ids ->
  StronglySorted id_le node_ids ->
  In n node_ids -> int16 n = Ok k ->
  first_at_least k node_ids = Ok (Some n).
Proof.
  intros Hids Hs Hin Hk.
  induction Hs as [| h l Hs IH Hh]; [contradiction |].
  inversion Hids as [| ? ? Hhw Hlw]; subst.
  cbn [first_at_least].
  destruct Hin as [-> | Hin].
  - rewrite Hk. cbn [bind].
    destruct (Z.geb_spec k k); [reflexivity | lia].
  - rewrite Forall_forall in Hh.
    destruct (Hh n Hin) as (x & y & Hx & Hy & Hle).
    rewrite Hx. cbn [bind].
    assert (y = k) by congruence. subst y.
    destruct (Z.geb_spec x k) as [Hge | Hlt].
    + assert (x = k) by lia. subst x.
      do 2 f_equal. apply (same_value_same_id w h n k); try assumption.
      rewrite Forall_forall in Hlw. now apply Hlw.
    + now apply IH.
Qed.

(** X7: on an ascending ring of fixed-width identifiers every node owns
    its own identifier, so looking up an owner again returns the same
    owner. *)
Theorem owner_is_fixed_point (w : nat) (node_ids : list string) :
  (0 < w)%nat ->
  Forall (is_hex_id w) node_ids ->
  Sorted id_le node_ids ->
  (forall n, In n node_ids -> get_responsible_node n node_ids = Ok n) /\
  (forall key_hex owner,
      get_responsible_node key_hex node_ids = Ok owner ->
      get_responsible_node owner node_ids = Ok owner).
Proof.
  intros Hw Hids Hsorted.
  assert (Hs : StronglySorted id_le node_ids).
  { apply Sorted_StronglySorted; [| exact Hsorted].
    intros a b c. apply id_le_trans. }
  assert (Hfix : forall n, In n node_ids ->
                           get_responsible_node n node_ids = Ok n).
  { intros n Hin.
    assert (Hn : is_hex_id w n).
    { rewrite Forall_forall in Hids. now apply Hids. }
    destruct (int16_lower_hex w n Hw Hn) as (k & Hk & _).
    unfold get_responsible_node. rewrite Hk. cbn [bind].
    now rewrite (first_at_least_member w node_ids n k). }
  split; [exact Hfix |].
  intros key_hex owner Ho. apply Hfix.
  eapply get_responsible_node_in, Ho.
Qed.

Lemma owner_is_fixed_point_witness :
  get_responsible_node "50" ["10"; "50"; "90"] = Ok "50".
Proof.
  apply (proj1 (owner_is_fixed_point 2 ["10"; "50"; "90"]
                  ltac:(lia)
                  ltac:(repeat constructor)
                  ltac:(repeat first [apply Sorted_cons | apply Sorted_nil
                                     | apply HdRel_nil | apply HdRel_cons];
                        do 2 eexists;
                        (split; [reflexivity
                                | split; [reflexivity
                                         | vm_compute; congruence]])))).
  right. left. reflexivity.
Defined.

Lemma first_at_least_monotone (node_ids : list string) (k1 k2 : Z)
    (o2 : string) :
  StronglySorted id_le node_ids ->
  k1 <= k2 ->
  first_at_least k2 node_ids = Ok (Some o2) ->
  exists o1, first_at_least k1 node_ids = Ok (Some o1) /\ id_le o1 o2.
Proof.
  intros Hs Hk. induction Hs as [| h l Hs IH Hh]; [discriminate |].
  cbn [first_at_least].
  destruct (int16 h) as [v | e] eqn:Hv; [| discriminate]. cbn [bind].
  destruct (Z.geb_spec v k2) as [Hge2 | Hlt2].
  - intros H. injection H as <-.
    destruct (Z.geb_spec v k1); [| lia].
    exists h. split; [reflexivity |]. exists v, v. repeat split; (assumption || lia).
  - intros H. destruct (Z.geb_spec v k1) as [Hge1 | Hlt1].
    + exists h. split; [reflexivity |].
      rewrite Forall_forall in Hh. apply Hh.
      eapply first_at_least_in, H.
    + now apply IH.
Qed.

(** X8: ownership is monotone below the wrap-around: on an ascending
    ring, if key [k2] is owned by an entry at or above it, every smaller
    key [k1] is owned by an entry at or above [k1] and not above the owner
    of [k2]. *)
Theorem owner_monotone (node_ids : list string) (key1 key2 owner2 : string) :
  Sorted id_le node_ids ->
  id_le key1 key2 ->
  get_responsible_node key2 node_ids = Ok owner2 ->
  id_le key2 owner2 ->
  exists owner1,
    get_responsible_node key1 node_ids = Ok owner1 /\
    id_le key1 owner1 /\ id_le owner1 owner2.
Proof.
  intros Hsorted (k1 & k2 & Hk1 & Hk2 & Hle) Ho2 (k2' & v2 & Hk2' & Hv2 & Hkv).
  assert (k2' = k2) by congruence. subst k2'.
  assert (Hs : StronglySorted id_le node_ids).
  { apply Sorted_StronglySorted; [| exact Hsorted].
    intros a b c. apply id_le_trans. }
  unfold get_responsible_node in *. rewrite Hk2 in Ho2. rewrite Hk1.
  cbn [bind] in *.
  destruct (first_at_least k2 node_ids) as [[found |] | e] eqn:Hf;
    [| | discriminate]; cbn [bind] in Ho2.
  - injection Ho2 as ->.
    destruct (first_at_least_monotone node_ids k1 k2 owner2 Hs Hle Hf)
      as (o1 & Ho1 & Hoo).
    exists o1. rewrite Ho1. cbn [bind]. repeat split; try assumption.
    (* the owner found by the scan is at or above the key *)
    clear - Ho1 Hk1.
    induction node_ids as [| h l IH]; [discriminate |].
    cbn [first_at_least] in Ho1.
    destruct (int16 h) as [v | e] eqn:Hv; [| discriminate].
    cbn [bind] in Ho1.
    destruct (Z.geb_spec v k1).
    + injection Ho1 as <-. exists k1, v. repeat split; (assumption || lia).
    + now apply IH.
  - (* the scan for [key2] found nothing: its owner is below it *)
    exfalso. destruct node_ids as [| first rest]; [discriminate |].
    injection Ho2 as ->.
    cbn [first_at_least] in Hf. rewrite Hv2 in Hf. cbn [bind] in Hf.
    destruct (Z.geb_spec v2 k2); [discriminate | lia].
Qed.

Lemma owner_monotone_witness :
  exists owner1,
    get_responsible_node "20" ["10"; "50"; "90"] = Ok owner1 /\
    id_le "20" owner1 /\ id_le owner1 "90".
Proof.
  apply (owner_monotone ["10"; "50"; "90"] "20" "60" "90").
  - repeat first [apply Sorted_cons | apply Sorted_nil
                 | apply HdRel_nil | apply HdRel_cons];
      do 2 eexists;
      (split; [reflexivity | split; [reflexivity | vm_compute; congruence]]).
  - exists 32, 96. repeat split; vm_compute; congruence.
  - reflexivity.
  - exists 96, 144. repeat split; vm_compute; congruence.
Defined.

(** ** Identifier widths outside 1..160 *)

Lemma map_result_all_raise {A B : Type} (f : A -> result B) (e : string)
    (l : list A) :
  (forall a, f a = Raise e) ->
  map_result f l = match l with [] => Ok [] | _ => Raise e end.
Proof.
  intros Hf. destruct l as [| a l]; [reflexivity |].
  cbn [map_result]. now rewrite Hf.
Qed.

Lemma get_id_from_string_no_octets (g : config) (s : string) :
  BYTE_LEN g = 0 ->
  get_id_from_string g s
  = if 0 - ID_BITS g >? 0 then Raise "IndexError" else Ok EmptyString.
Proof.
  intros Hl. unfold get_id_from_string, slice_to. rewrite Hl.
  cbn [Z.ltb Z.compare Z.to_nat firstn Z.mul].
  destruct (0 - ID_BITS g >? 0); reflexivity.
Qed.

(** X9: an [ID_BITS] of zero makes every identifier the empty string, an
    [ID_BITS] from -7 to -1 makes every derivation fail on [buf[0]]; in
    both cases the run produces no summary: it ends with [ValueError] (the
    empty key is no number) or with [IndexError]. *)
Theorem nonpositive_bits_abort (file : config_file) (g : config)
    (net : string -> http_outcome) :
  load_config file default_config = Ok g ->
  -7 <= ID_BITS g <= 0 ->
  (forall s, get_id_from_string g s
             = if ID_BITS g =? 0 then Ok EmptyString else Raise "IndexError")
  /\ test_routing file net
     = Raise (if ID_BITS g =? 0 then "ValueError" else "IndexError").
Proof.
  intros Hload Hbits.
  pose proof (load_config_default_len file g Hload) as Hlen.
  assert (Hl : BYTE_LEN g = 0).
  { rewrite Hlen. Z.div_mod_to_equations. lia. }
  assert (Hid : forall s, get_id_from_string g s
             = if ID_BITS g =? 0 then Ok EmptyString else Raise "IndexError").
  { intros s. rewrite (get_id_from_string_no_octets g s Hl).
    destruct (Z.eqb_spec (ID_BITS g) 0) as [-> | Hne]; [reflexivity |].
    destruct (Z.gtb_spec (0 - ID_BITS g) 0); [reflexivity | lia]. }
  split; [exact Hid |].
  unfold test_routing. rewrite Hload. cbn [bind].
  unfold get_node_ids, urls.
  destruct (Z.eqb_spec (ID_BITS g) 0) as [Hz | Hnz].
  - destruct (map_result_ok (fun i => get_id_from_string g (node_name i))
                (fun _ => True) (range (NUM_NODES g)))
      as (ids & -> & _); [intros i; rewrite Hid; now eexists |].
    cbn [bind for_urls]. rewrite Hid. reflexivity.
  - rewrite (map_result_all_raise _ "IndexError")
      by (intros i; apply Hid).
    destruct (range (NUM_NODES g)); [| reflexivity].
    cbn [bind for_urls]. rewrite Hid. reflexivity.
Qed.

Lemma nonpositive_bits_abort_witness :
  test_routing (FileJson (JDict [("ID_BITS", JInt 0)]))
    (fun _ => Response 200 None)
  = Raise "ValueError".
Proof.
  apply (proj2 (nonpositive_bits_abort
                  (FileJson (JDict [("ID_BITS", JInt 0)]))
                  {| NUM_NODES := 8; ID_BITS := 0; BYTE_LEN := 0 |}
                  (fun _ => Response 200 None) eq_refl
                  ltac:(vm_compute; split; discriminate))).
Defined.

(** ** The width of the normalised header *)

Lemma zfill_ok_range (s r : string) (width : Z) :
  zfill s width = Ok r -> - 2 ^ 63 <= width <= 2 ^ 63 - 1.
Proof.
  unfold zfill.
  destruct (Z.ltb_spec width (- 2 ^ 63)); [discriminate |].
  destruct (Z.ltb_spec (2 ^ 63 - 1) width); [discriminate |].
  lia.
Qed.

Lemma zfill_ok_length (s r : string) (width : Z) :
  zfill s width = Ok r ->
  Z.of_nat (str_len r) = Z.max (Z.of_nat (str_len s)) width.
Proof.
  intros H.
  destruct (zfill_in_range s width (zfill_ok_range s r width H))
    as (r' & Hr' & Hlen).
  congruence.
Qed.

(** X10: for [ID_BITS] from 1 to 160 the normalised header has, counted in
    code points, the larger of [2 * BYTE_LEN] and the length of the header
    without its [0x]: padding adds characters and removes none.  So a
    header whose stripped form is longer than [2 * BYTE_LEN] is counted as
    a mismatch against any identifier of [2 * BYTE_LEN] characters,
    whatever number it spells. *)
Theorem normalized_width (g : config) (hdr : option string) :
  1 <= ID_BITS g <= 160 ->
  BYTE_LEN g = (ID_BITS g + 7) / 8 ->
  let stripped :=
    replace_0x (match hdr with Some v => v | None => EmptyString end) in
  exists actual,
    normalize_node_id g hdr = Ok actual /\
    Z.of_nat (str_len actual)
    = Z.max (Z.of_nat (str_len stripped)) (BYTE_LEN g * 2) /\
    forall expected t,
      Z.of_nat (str_len expected) = BYTE_LEN g * 2 ->
      BYTE_LEN g * 2 < Z.of_nat (str_len stripped) ->
      check_response g expected (Response 200 hdr) t
      = (Mismatched actual,
         {| match_count := match_count t;
            total_count := total_count t + 1 |}).
Proof.
  intros Hbits Hbl stripped.
  assert (Hg : valid_config g) by (split; assumption).
  destruct (zfill_in_range stripped (BYTE_LEN g * 2)
              (valid_config_width g Hg)) as (actual & Hz & Hlen).
  change (normalize_node_id g hdr = Ok actual) in Hz.
  exists actual. split; [exact Hz |]. split; [exact Hlen |].
  intros expected t Hexp Hlong.
  cbn [check_response Z.eqb Pos.eqb negb]. rewrite Hz.
  destruct (String.eqb_spec actual expected) as [Heq | _];
    [| reflexivity].
  rewrite Heq in Hlen. lia.
Qed.

Lemma normalized_width_witness :
  check_response default_config "0123ddd1a5157c34d7"
    (Response 200 (Some "0x000123ddd1a5157c34d7"))
    {| match_count := 0; total_count := 0 |}
  = (Mismatched "000123ddd1a5157c34d7",
     {| match_count := 0; total_count := 1 |}).
Proof.
  destruct (normalized_width default_config
              (Some "0x000123ddd1a5157c34d7"))
    as (actual & Hnorm & _ & Hmis).
  - vm_compute. split; discriminate.
  - reflexivity.
  - vm_compute in Hnorm. injection Hnorm as <-.
    apply Hmis.
    + reflexivity.
    + vm_compute. reflexivity.
Defined.

(** X16: when [2 * BYTE_LEN] does not fit a machine-size integer the
    padding raises [OverflowError] inside the [try]: every response with
    status 200 is then reported as a failed request and counted in neither
    count, whatever its header. *)
Theorem huge_width_uncounted (g : config) (expected : string)
    (hdr : option string) (t : tally) :
  2 ^ 63 - 1 < BYTE_LEN g * 2 ->
  normalize_node_id g hdr = Raise "OverflowError" /\
  check_response g expected (Response 200 hdr) t = (RequestFailed, t).
Proof.
  intros Hbig.
  assert (Hraise : normalize_node_id g hdr = Raise "OverflowError").
  { unfold normalize_node_id, zfill.
    destruct (Z.ltb_spec (2 ^ 63 - 1) (BYTE_LEN g * 2)); [| lia].
    now rewrite orb_true_r. }
  split; [exact Hraise |].
  cbn [check_response Z.eqb Pos.eqb negb]. now rewrite Hraise.
Qed.

Lemma huge_width_uncounted_witness :
  load_config (FileJson (JDict [("ID_BITS", JInt (10 ^ 20))])) default_config
    = Ok {| NUM_NODES := 8; ID_BITS := 10 ^ 20;
            BYTE_LEN := 12500000000000000000 |} /\
  check_response {| NUM_NODES := 8; ID_BITS := 10 ^ 20;
                    BYTE_LEN := 12500000000000000000 |}
    "4341b85000000000000000000000000000000000" (Response 200 (Some "0x0"))
    {| match_count := 0; total_count := 0 |}
  = (RequestFailed, {| match_count := 0; total_count := 0 |}).
Proof.
  split; [vm_compute; reflexivity |].
  apply huge_width_uncounted. vm_compute. reflexivity.
Defined.

Lemma get_id_from_string_wide (g : config) (s : string) :
  160 < ID_BITS g ->
  BYTE_LEN g = (ID_BITS g + 7) / 8 ->
  exists id, get_id_from_string g s = Ok id /\ is_hex_id 40 id.
Proof.
  intros Hbits Hlen.
  assert (Hl : 21 <= BYTE_LEN g).
  { rewrite Hlen. Z.div_mod_to_equations. lia. }
  assert (He : 0 <= BYTE_LEN g * 8 - ID_BITS g < 8).
  { rewrite Hlen. Z.div_mod_to_equations. lia. }
  unfold get_id_from_string, slice_to.
  destruct (Z.ltb_spec (BYTE_LEN g) 0); [lia |].
  rewrite firstn_all2 by (rewrite sha1_length; lia).
  pose proof (sha1_length (encode_utf8 s)) as H20.
  pose proof (sha1_range (encode_utf8 s)) as Hrange.
  destruct (sha1 (encode_utf8 s)) as [| b0 rest]; [discriminate |].
  inversion Hrange as [| ? ? Hb0 Hrest]; subst.
  destruct (Z.gtb_spec (BYTE_LEN g * 8 - ID_BITS g) 0) as [Hpos | Hpos];
    cbn [bind]; eexists; (split; [reflexivity |]); split.
  - rewrite hex_length. cbn [List.length] in *. lia.
  - apply hex_lower. constructor; [| exact Hrest].
    rewrite mask_is_mod by lia. unfold is_byte in *.
    pose proof (Z.mod_pos_bound b0 (2 ^ (8 - (BYTE_LEN g * 8 - ID_BITS g)))
                  ltac:(apply Z.pow_pos_nonneg; lia)).
    pose proof (Z.mod_le b0 (2 ^ (8 - (BYTE_LEN g * 8 - ID_BITS g)))
                  ltac:(lia) ltac:(apply Z.pow_pos_nonneg; lia)).
    lia.
  - rewrite hex_length. cbn [List.length] in *. lia.
  - apply hex_lower. now constructor.
Qed.

Lemma for_urls_no_match (g : config) (node_ids : list string)
    (net : string -> http_outcome) (us : list string) :
  (forall expected out t,
      In expected node_ids ->
      match_count (snd (check_response g expected out t)) = match_count t) ->
  forall t reps t',
    for_urls g node_ids net us t = Ok (reps, t') ->
    match_count t' = match_count t.
Proof.
  intros Hno. induction us as [| u us IH]; intros t reps t' H.
  - cbn in H. now injection H as _ <-.
  - cbn [for_urls] in H.
    destruct (get_id_from_string g u) as [key | e]; [| discriminate].
    cbn [bind] in H.
    destruct (get_responsible_node key node_ids) as [owner | e] eqn:Ho;
      [| discriminate].
    cbn [bind] in H.
    pose proof (Hno owner (net u) t (get_responsible_node_in _ _ _ Ho))
      as Hstep.
    destruct (check_response g owner (net u) t) as [v t1].
    cbn [snd] in Hstep.
    destruct (for_urls g node_ids net us t1) as [[reps1 t2] | e] eqn:Hrest;
      [| discriminate].
    cbn [bind fst snd] in H. injection H as _ <-.
    rewrite (IH t1 reps1 t2 Hrest). exact Hstep.
Qed.

(** X11: with [ID_BITS] above 160, [BYTE_LEN] exceeds the twenty octets
    of the digest: every ring identifier and every key is a lower-case
    hexadecimal string of 40 characters, fewer than [2 * BYTE_LEN].  A run
    that completes then reports no match at all, whatever the collaborator
    answers. *)
Theorem wide_bits_never_match (file : config_file) (g : config)
    (net : string -> http_outcome) (s : summary) :
  load_config file default_config = Ok g ->
  160 < ID_BITS g ->
  test_routing file net = Ok s ->
  40 < BYTE_LEN g * 2 /\
  Forall (is_hex_id 40) (ring s) /\
  Forall (fun r => is_hex_id 40 (key_id r) /\
                   is_matched (outcome r) = false) (reports s) /\
  match_count (final s) = 0.
Proof.
  intros Hload Hbits Hrun.
  pose proof (load_config_default_len file g Hload) as Hlen.
  assert (Hl : 21 <= BYTE_LEN g).
  { rewrite Hlen. Z.div_mod_to_equations. lia. }
  split; [lia |].
  unfold test_routing in Hrun. rewrite Hload in Hrun. cbn [bind] in Hrun.
  destruct (map_result_ok (fun i => get_id_from_string g (node_name i))
              (is_hex_id 40) (range (NUM_NODES g)))
    as (ids & Hm & _ & Hids & _).
  { intros i. apply get_id_from_string_wide; assumption. }
  unfold get_node_ids in Hrun. rewrite Hm in Hrun. cbn [bind] in Hrun.
  assert (Hring : Forall (is_hex_id 40) (sorted ids)).
  { eapply Permutation_Forall; [apply Permutation_sym, sorted_perm |].
    exact Hids. }
  assert (Hno : forall expected out t,
             In expected (sorted ids) ->
             check_response g expected out t
               = (fst (check_response g expected out t),
                  snd (check_response g expected out t)) /\
             is_matched (fst (check_response g expected out t)) = false /\
             match_count (snd (check_response g expected out t))
               = match_count t).
  { intros expected out t Hin.
    rewrite Forall_forall in Hring.
    destruct (Hring expected Hin) as [Hlen40 Hlow].
    split; [apply surjective_pairing |].
    destruct out as [| status hdr]; [now split |].
    cbn [check_response]. destruct (negb (status =? 200)); [now split |].
    destruct (normalize_node_id g hdr) as [actual | e] eqn:Hnorm;
      [| now split].
    destruct (String.eqb_spec actual expected) as [Heq | _]; [| now split].
    apply zfill_ok_length in Hnorm.
    rewrite Heq, (str_len_hex expected (all_lower_all_hex _ Hlow)), Hlen40
      in Hnorm.
    lia. }
  destruct (for_urls g (sorted ids) net urls _) as [[reps t] | e] eqn:Hfor;
    [| discriminate].
  cbn [bind fst snd] in Hrun. injection Hrun as <-.
  cbn [ring reports final].
  split; [exact Hring |]. split.
  - clear - Hfor Hno Hbits Hlen.
    revert reps t Hfor.
    generalize {| match_count := 0; total_count := 0 |} as t0.
    induction urls as [| u us IH]; intros t0 reps t H.
    + cbn in H. injection H as <- _. constructor.
    + cbn [for_urls] in H.
      destruct (get_id_from_string_wide g u Hbits Hlen) as (key & Hk & Hk40).
      rewrite Hk in H. cbn [bind] in H.
      destruct (get_responsible_node key (sorted ids)) as [owner | e] eqn:Ho;
        [| discriminate].
      cbn [bind] in H.
      destruct (Hno owner (net u) t0 (get_responsible_node_in _ _ _ Ho))
        as (Hpair & Hnm & _).
      rewrite Hpair in H.
      destruct (for_urls g (sorted ids) net us _) as [[reps1 t2] | e]
        eqn:Hrest; [| discriminate].
      cbn [bind fst snd] in H. injection H as <- _.
      constructor; [now split | eapply IH, Hrest].
  - change 0 with (match_count {| match_count := 0; total_count := 0 |}).
    eapply for_urls_no_match; [| exact Hfor].
    intros expected out t0 Hin.
    now destruct (Hno expected out t0 Hin) as (_ & _ & ?).
Qed.

Lemma wide_bits_never_match_witness :
  exists s,
    test_routing (FileJson (JDict [("ID_BITS", JInt 168)]))
      (fun _ => Response 200 (Some "0x0")) = Ok s /\
    Forall (is_hex_id 40) (ring s) /\
    final s = {| match_count := 0; total_count := 8 |}.
Proof.
  eexists. split; [vm_compute; reflexivity |].
  split.
  - apply (wide_bits_never_match
             (FileJson (JDict [("ID_BITS", JInt 168)]))
             {| NUM_NODES := 8; ID_BITS := 168; BYTE_LEN := 21 |}
             (fun _ => Response 200 (Some "0x0")) _ eq_refl
             ltac:(vm_compute; reflexivity)).
    vm_compute. reflexivity.
  - reflexivity.
Defined.

(** ** Reports and summary *)

(** X12: what the oracle predicts does not depend on the collaborator:
    two batches over the same URLs with different answers, and different
    starting tallies, either both fail with the same exception or report
    the same URL, key and expected node for every key, in the same order. *)
Theorem predictions_ignore_collaborator (g : config) (node_ids : list string)
    (net1 net2 : string -> http_outcome) (us : list string) :
  forall t1 t2,
    match for_urls g node_ids net1 us t1, for_urls g node_ids net2 us t2 with
    | Ok (reps1, _), Ok (reps2, _) =>
        map prediction reps1 = map prediction reps2
    | Raise e1, Raise e2 => e1 = e2
    | _, _ => False
    end.
Proof.
  induction us as [| u us IH]; intros t1 t2; [reflexivity |].
  cbn [for_urls].
  destruct (get_id_from_string g u) as [key | e]; [| reflexivity].
  cbn [bind].
  destruct (get_responsible_node key node_ids) as [owner | e];
    [| reflexivity].
  cbn [bind].
  destruct (check_response g owner (net1 u) t1) as [v1 t1'].
  destruct (check_response g owner (net2 u) t2) as [v2 t2'].
  specialize (IH t1' t2').
  destruct (for_urls g node_ids net1 us t1') as [[reps1 t1''] | e1];
    destruct (for_urls g node_ids net2 us t2') as [[reps2 t2''] | e2];
    cbn [bind fst snd]; try contradiction; try assumption.
  cbn [map prediction url key_id expected_node]. now rewrite IH.
Qed.

Lemma for_urls_counts (g : config) (node_ids : list string)
    (net : string -> http_outcome) (us : list string) :
  forall t reps t',
    for_urls g node_ids net us t = Ok (reps, t') ->
    match_count t' = match_count t + count_reports is_matched reps /\
    total_count t' = total_count t + count_reports is_counted reps.
Proof.
  unfold count_reports.
  induction us as [| u us IH]; intros t reps t' H.
  - cbn in H. injection H as <- <-. cbn. lia.
  - cbn [for_urls] in H.
    destruct (get_id_from_string g u) as [key | e]; [| discriminate].
    cbn [bind] in H.
    destruct (get_responsible_node key node_ids) as [owner | e];
      [| discriminate].
    cbn [bind] in H.
    destruct (check_response g owner (net u) t) as [v t1] eqn:Hc.
    destruct (for_urls g node_ids net us t1) as [[reps1 t2] | e] eqn:Hrest;
      [| discriminate].
    cbn [bind fst snd] in H. injection H as <- <-.
    destruct (IH t1 reps1 t2 Hrest) as [Hm Ht].
    cbn [filter outcome].
    destruct (net u) as [| status hdr]; cbn [check_response] in Hc.
    + injection Hc as <- <-. cbn [is_matched is_counted]. lia.
    + destruct (negb (status =? 200)).
      * injection Hc as <- <-. cbn [is_matched is_counted]. lia.
      * destruct (normalize_node_id g hdr) as [actual | e'].
        -- destruct (String.eqb _ _); injection Hc as <- <-;
             cbn [is_matched is_counted List.length match_count total_count]
               in *; lia.
        -- injection Hc as <- <-. cbn [is_matched is_counted]. lia.
Qed.

(** X13: the summary agrees with the reports: [match_count] is the number
    of keys reported as a match and [total_count] the number reported as a
    match or a mismatch; keys whose request failed appear in the reports
    and in neither count. *)
Theorem summary_counts_reports (file : config_file)
    (net : string -> http_outcome) (s : summary) :
  test_routing file net = Ok s ->
  match_count (final s) = count_reports is_matched (reports s) /\
  total_count (final s) = count_reports is_counted (reports s) /\
  map url (reports s) = urls.
Proof.
  unfold test_routing. intros H.
  destruct (load_config file default_config) as [g | e]; [| discriminate].
  cbn [bind] in H.
  destruct (get_node_ids g) as [node_ids | e]; [| discriminate].
  cbn [bind] in H.
  destruct (for_urls g node_ids net urls _) as [[reps t] | e] eqn:Hrun;
    [| discriminate].
  cbn [bind fst snd] in H. injection H as <-. cbn [final reports].
  destruct (for_urls_counts _ _ _ _ _ _ _ Hrun) as [Hm Ht].
  cbn [match_count total_count] in Hm, Ht.
  split; [lia | split; [lia |]].
  clear - Hrun. revert reps t Hrun.
  generalize {| match_count := 0; total_count := 0 |} as t0.
  induction urls as [| u us IH]; intros t0 reps t H.
  - cbn in H. now injection H as <- _.
  - cbn [for_urls] in H.
    destruct (get_id_from_string g u) as [key | e]; [| discriminate].
    cbn [bind] in H.
    destruct (get_responsible_node key node_ids) as [owner | e];
      [| discriminate].
    cbn [bind] in H.
    destruct (check_response g owner (net u) t0) as [v t1].
    destruct (for_urls g node_ids net us t1) as [[reps1 t2] | e] eqn:Hrest;
      [| discriminate].
    cbn [bind fst snd] in H. injection H as <- _.
    cbn [map url]. f_equal. eapply IH, Hrest.
Qed.

Lemma summary_counts_reports_witness :
  exists s,
    test_routing FileAbsent
      (fun u => if String.eqb u "https://example.org"
                then Response 200 (Some "0x123ddd1a5157c34d7")
                else if String.eqb u "https://neverssl.com"
                     then Response 503 None
                     else Response 200 (Some "0x0")) = Ok s /\
    match_count (final s) = 1 /\ total_count (final s) = 7 /\
    count_reports is_matched (reports s) = 1 /\
    count_reports is_counted (reports s) = 7.
Proof.
  eexists. split; [vm_compute; reflexivity |].
  match goal with
  | |- match_count (final ?s) = _ /\ _ =>
      destruct (summary_counts_reports FileAbsent
                  (fun u => if String.eqb u "https://example.org"
                            then Response 200 (Some "0x123ddd1a5157c34d7")
                            else if String.eqb u "https://neverssl.com"
                                 then Response 503 None
                                 else Response 200 (Some "0x0"))
                  s ltac:(vm_compute; reflexivity)) as (Hm & Ht & _)
  end.
  split; [reflexivity | split; [reflexivity | split]].
  - rewrite <- Hm. reflexivity.
  - rewrite <- Ht. reflexivity.
Defined.

(** X14: every report is about its own key only: its key is the
    identifier derived from its URL, its expected node is the owner of that
    key on the ring, and its verdict is the one the response to that URL
    gives against that expected node, whatever the tally was and whatever
    the other keys got. *)
Theorem reports_are_independent (g : config) (node_ids : list string)
    (net : string -> http_outcome) (us : list string) :
  forall t reps t',
    for_urls g node_ids net us t = Ok (reps, t') ->
    Forall (fun r =>
              get_id_from_string g (url r) = Ok (key_id r) /\
              get_responsible_node (key_id r) node_ids
                = Ok (expected_node r) /\
              In (expected_node r) node_ids /\
              forall t0,
                outcome r
                = fst (check_response g (expected_node r) (net (url r)) t0))
           reps.
Proof.
  induction us as [| u us IH]; intros t reps t' H.
  - cbn in H. injection H as <- _. constructor.
  - cbn [for_urls] in H.
    destruct (get_id_from_string g u) as [key | e] eqn:Hk; [| discriminate].
    cbn [bind] in H.
    destruct (get_responsible_node key node_ids) as [owner | e] eqn:Ho;
      [| discriminate].
    cbn [bind] in H.
    destruct (check_response g owner (net u) t) as [v t1] eqn:Hc.
    destruct (for_urls g node_ids net us t1) as [[reps1 t2] | e] eqn:Hrest;
      [| discriminate].
    cbn [bind fst snd] in H. injection H as <- _.
    constructor; [| eapply IH, Hrest].
    cbn [url key_id expected_node outcome].
    repeat split; try assumption.
    + eapply get_responsible_node_in, Ho.
    + intros t0. replace v with (fst (check_response g owner (net u) t))
        by now rewrite Hc.
      destruct (net u) as [| status hdr]; cbn [check_response fst];
        [reflexivity |].
      destruct (negb (status =? 200)); [reflexivity |].
      destruct (normalize_node_id g hdr) as [actual | e']; [| reflexivity].
      destruct (String.eqb _ _); reflexivity.
Qed.

Lemma reports_are_independent_witness :
  let g := {| NUM_NODES := 3; ID_BITS := 8; BYTE_LEN := 1 |} in
  exists reps t',
    for_urls g ["10"; "50"; "90"] (fun _ => Response 200 (Some "0x10"))
      ["https://example.org"] {| match_count := 0; total_count := 0 |}
    = Ok (reps, t') /\
    Forall (fun r => In (expected_node r) ["10"; "50"; "90"]) reps.
Proof.
  intros g. do 2 eexists. split; [vm_compute; reflexivity |].
  eapply Forall_impl;
    [| apply (reports_are_independent g ["10"; "50"; "90"]
                (fun _ => Response 200 (Some "0x10"))
                ["https://example.org"]
                {| match_count := 0; total_count := 0 |} _ _
                ltac:(vm_compute; reflexivity))].
  intros r (_ & _ & Hin & _). exact Hin.
Defined.

Lemma normalize_hex_id (g : config) (id : string) (with_prefix : bool) :
  is_hex_id (2 * Z.to_nat (BYTE_LEN g)) id ->
  0 <= BYTE_LEN g <= 20 ->
  normalize_node_id g
    (Some (String.append (if with_prefix then "0x" else EmptyString) id))
  = Ok id.
Proof.
  intros [Hlen Hlow] Hl. unfold normalize_node_id.
  assert (Hstrip : replace_0x
            (String.append (if with_prefix then "0x" else EmptyString) id)
            = id).
  { destruct with_prefix;
      cbn [String.append replace_0x Ascii.eqb Bool.eqb andb];
      now apply replace_0x_hex, all_lower_all_hex. }
  rewrite Hstrip.
  rewrite (zfill_hex id (BYTE_LEN g * 2) (all_lower_all_hex _ Hlow))
    by lia.
  replace (Z.to_nat (BYTE_LEN g * 2) - String.length id)%nat with 0%nat
    by lia.
  reflexivity.
Qed.

(** X15: a collaborator that answers every URL with status 200 and the
    identifier of the node the oracle expects, with or without the [0x]
    prefix, gets a full score: every report is a match and the batch adds
    the number of URLs to both counts. *)
Theorem conforming_collaborator_scores_all (g : config)
    (node_ids : list string) (net : string -> http_outcome)
    (us : list string) (t : tally) :
  1 <= ID_BITS g <= 160 ->
  BYTE_LEN g = (ID_BITS g + 7) / 8 ->
  node_ids <> [] ->
  Forall (is_hex_id (2 * Z.to_nat (BYTE_LEN g))) node_ids ->
  (forall u key owner,
      In u us ->
      get_id_from_string g u = Ok key ->
      get_responsible_node key node_ids = Ok owner ->
      exists with_prefix : bool,
        net u = Response 200
                  (Some (String.append
                           (if with_prefix then "0x" else EmptyString)
                           owner))) ->
  exists reps,
    for_urls g node_ids net us t
    = Ok (reps,
          {| match_count := match_count t + Z.of_nat (List.length us);
             total_count := total_count t + Z.of_nat (List.length us) |}) /\
    map url reps = us /\
    Forall (fun r => outcome r = Matched (expected_node r)) reps.
Proof.
  intros Hbits Hlen Hne Hids.
  assert (Hg : valid_config g) by (split; assumption).
  destruct (valid_config_extra g Hg) as [Hl _].
  assert (Hw : (0 < 2 * Z.to_nat (BYTE_LEN g))%nat) by lia.
  revert t. induction us as [| u us IH]; intros t Hnet.
  - exists []. cbn [for_urls List.length map]. repeat split.
    + destruct t. cbn. now rewrite !Z.add_0_r.
    + constructor.
  - cbn [for_urls].
    destruct (get_id_from_string_hex g u Hg) as (key & Hk & Hkey).
    destruct (get_responsible_node_total _ node_ids key Hw Hne Hids Hkey)
      as (owner & Ho & Hin).
    destruct (Hnet u key owner (or_introl eq_refl) Hk Ho) as (wp & Hu).
    rewrite Hk. cbn [bind]. rewrite Ho. cbn [bind]. rewrite Hu.
    cbn [check_response Z.eqb Pos.eqb negb].
    assert (Hoid : is_hex_id (2 * Z.to_nat (BYTE_LEN g)) owner).
    { rewrite Forall_forall in Hids. now apply Hids. }
    rewrite (normalize_hex_id g owner wp Hoid) by lia.
    rewrite String.eqb_refl.
    destruct (IH {| match_count := match_count t + 1;
                    total_count := total_count t + 1 |})
      as (reps & Hrest & Hurls & Hall).
    { intros u' key' owner' Hin'. apply Hnet. now right. }
    rewrite Hrest. cbn [bind fst snd].
    eexists. split; [| split].
    + do 2 f_equal. cbn [match_count total_count List.length].
      f_equal; lia.
    + cbn [map url]. now rewrite Hurls.
    + constructor; [reflexivity | exact Hall].
Qed.

Lemma conforming_collaborator_scores_all_witness :
  let g := {| NUM_NODES := 3; ID_BITS := 8; BYTE_LEN := 1 |} in
  let net := fun u : string =>
    match (key <- get_id_from_string g u ;;
           get_responsible_node key ["10"; "50"; "90"]) with
    | Ok owner => Response 200 (Some (String.append "0x" owner))
    | Raise _ => NetworkError
    end in
  exists reps,
    for_urls g ["10"; "50"; "90"] net urls
      {| match_count := 0; total_count := 0 |}
    = Ok (reps, {| match_count := 8; total_count := 8 |}).
Proof.
  intros g net.
  destruct (conforming_collaborator_scores_all g ["10"; "50"; "90"] net urls
              {| match_count := 0; total_count := 0 |})
    as (reps & Hrun & _).
  - vm_compute. split; discriminate.
  - reflexivity.
  - discriminate.
  - repeat constructor.
  - intros u key owner _ Hk Ho. exists true.
    unfold net. rewrite Hk. cbn [bind]. now rewrite Ho.
  - exists reps. exact Hrun.
Defined.
